(** * rgl-dnd: the grid layout component ([src/components/Layout.tsx])

    A shallow embedding of the [Layout] component and of the part of the
    layout engine it relies on, with the properties of the specification
    stated over it. *)

From Stdlib Require Import ZArith Lia.
From stdpp Require Import gmap strings list sorting pretty.

Local Open Scope Z_scope.

(** * Data model *)

Inductive CompactType := vertical | horizontal | none.

(** One card's placement on the grid.  The identifier is [i] in the code. *)
Module Item.
Record LayoutItem := mk {
  i : string;
  x : Z;
  y : Z;
  w : Z;
  h : Z;
  minW : option Z;
  maxW : option Z;
  minH : option Z;
  maxH : option Z;
  static : bool;
  isDraggable : option bool;
  isResizable : option bool;
  group : option string;
  placeholder : option bool
}.

Definition set_x (v : Z) (l : LayoutItem) : LayoutItem :=
  mk (i l) v (y l) (w l) (h l) (minW l) (maxW l) (minH l) (maxH l)
     (static l) (isDraggable l) (isResizable l) (group l) (placeholder l).
Definition set_y (v : Z) (l : LayoutItem) : LayoutItem :=
  mk (i l) (x l) v (w l) (h l) (minW l) (maxW l) (minH l) (maxH l)
     (static l) (isDraggable l) (isResizable l) (group l) (placeholder l).
Definition set_w (v : Z) (l : LayoutItem) : LayoutItem :=
  mk (i l) (x l) (y l) v (h l) (minW l) (maxW l) (minH l) (maxH l)
     (static l) (isDraggable l) (isResizable l) (group l) (placeholder l).
Definition set_h (v : Z) (l : LayoutItem) : LayoutItem :=
  mk (i l) (x l) (y l) (w l) v (minW l) (maxW l) (minH l) (maxH l)
     (static l) (isDraggable l) (isResizable l) (group l) (placeholder l).
Definition set_group (v : option string) (l : LayoutItem) : LayoutItem :=
  mk (i l) (x l) (y l) (w l) (h l) (minW l) (maxW l) (minH l) (maxH l)
     (static l) (isDraggable l) (isResizable l) v (placeholder l).
Definition set_placeholder (v : option bool) (l : LayoutItem) : LayoutItem :=
  mk (i l) (x l) (y l) (w l) (h l) (minW l) (maxW l) (minH l) (maxH l)
     (static l) (isDraggable l) (isResizable l) (group l) v.

(** A plain item: only identity and rectangle given. *)
Definition box (id : string) (x0 y0 w0 h0 : Z) : LayoutItem :=
  mk id x0 y0 w0 h0 None None None None false None None None None.
Definition fixed (id : string) (x0 y0 w0 h0 : Z) : LayoutItem :=
  mk id x0 y0 w0 h0 None None None None true None None None None.

(** What places an item: its identifier and its rectangle. *)
Definition geometry (l : LayoutItem) : string * Z * Z * Z * Z :=
  (i l, x l, y l, w l, h l).

#[global] Instance item_eq_dec : EqDecision LayoutItem.
Proof. solve_decision. Defined.
End Item.

Abbreviation LayoutItem := Item.LayoutItem.

(** * Collision detection *)

Module CollisionDetector.

(** Two half-open intervals [[a1, a2)] and [[b1, b2)] share a point. *)
Definition intersects (a1 a2 b1 b2 : Z) : bool :=
  bool_decide (Z.max a1 b1 < Z.min a2 b2).

(** Modelled from the spec: [collides] of the utils module is not among the
    sources.  Section 4.2: true iff the rectangles
    [[a.x, a.x+a.w) x [a.y, a.y+a.h)] and the one of [b] intersect on both
    axes and the identifiers differ. *)
Definition collides (a b : LayoutItem) : bool :=
  bool_decide (Item.i a ≠ Item.i b)
  && intersects (Item.x a) (Item.x a + Item.w a) (Item.x b) (Item.x b + Item.w b)
  && intersects (Item.y a) (Item.y a + Item.h a) (Item.y b) (Item.y b + Item.h b).

(** Modelled from the spec: [getAllCollisions] of the utils module is not
    among the sources.  Section 4.2: the items of the layout that collide
    with the given one, in the stored order. *)
Definition getAllCollisions (layout : list LayoutItem) (item : LayoutItem)
  : list LayoutItem :=
  filter (λ l, collides l item = true) layout.

End CollisionDetector.

(** * Compaction *)

Module Compactor.
Import CollisionDetector.

(** An item together with its position in the layout it comes from. *)
Abbreviation Entry := (nat * LayoutItem)%type.

Definition indexed (layout : list LayoutItem) : list Entry :=
  imap (λ k l, (k, l)) layout.

(** The items that compaction may move, with their positions. *)
Definition movable (layout : list LayoutItem) : list Entry :=
  filter (λ e : Entry, Item.static e.2 = false) (indexed layout).

(** Lexicographic order on (primary coordinate, secondary coordinate,
    position in the layout): sorting by the two coordinates, ties keeping
    their original relative order. *)
Definition keyLe (a b : Z * Z * nat) : Prop :=
  a.1.1 < b.1.1 ∨
  (a.1.1 = b.1.1 ∧ (a.1.2 < b.1.2 ∨ (a.1.2 = b.1.2 ∧ (a.2 ≤ b.2)%nat))).

Definition keyLt (a b : Z * Z * nat) : Prop :=
  a.1.1 < b.1.1 ∨
  (a.1.1 = b.1.1 ∧ (a.1.2 < b.1.2 ∨ (a.1.2 = b.1.2 ∧ (a.2 < b.2)%nat))).

#[global] Instance keyLe_dec : RelDecision keyLe.
Proof. intros a b. unfold keyLe. apply _. Defined.
#[global] Instance keyLt_dec : RelDecision keyLt.
Proof. intros a b. unfold keyLt. apply _. Defined.

(** The compaction along one axis, the same for both axes: [pos] is the
    coordinate along which items slide, [sec] the other one, and [setPos]
    writes the former. *)
Section Axis.
Variable pos sec : LayoutItem → Z.
Variable setPos : Z → LayoutItem → LayoutItem.

Definition key (e : Entry) : Z * Z * nat := (pos e.2, sec e.2, e.1).
Definition entryLe (a b : Entry) : Prop := keyLe (key a) (key b).
Definition entryLt (a b : Entry) : Prop := keyLt (key a) (key b).

#[global] Instance entryLe_dec : RelDecision entryLe.
Proof. intros a b. unfold entryLe. apply _. Defined.
#[global] Instance entryLt_dec : RelDecision entryLt.
Proof. intros a b. unfold entryLt. apply _. Defined.

(** Slide one cell at a time toward the origin while the coordinate is
    positive and the cell before is free of the items already placed.
    The loop runs at most [pos l] times: that is the fuel. *)
Fixpoint slide (fuel : nat) (placed : list LayoutItem) (l : LayoutItem)
  : LayoutItem :=
  match fuel with
  | O => l
  | S fuel' =>
      if bool_decide (0 < pos l)
         && negb (existsb (collides (setPos (pos l - 1) l)) placed)
      then slide fuel' placed (setPos (pos l - 1) l)
      else l
  end.

Definition compactItem (placed : list LayoutItem) (l : LayoutItem)
  : LayoutItem :=
  slide (Z.to_nat (pos l)) placed l.

(** Items are handled in sorted order, each one against the static items
    and the items handled before it. *)
Fixpoint place (placed : list LayoutItem) (sorted : list Entry)
  : list Entry :=
  match sorted with
  | [] => []
  | e :: rest =>
      let l' := compactItem placed e.2 in
      (e.1, l') :: place (placed ++ [l']) rest
  end.

(** Every handled item goes back to the position it had in the layout. *)
Definition writeBack (layout : list LayoutItem) (done : list Entry)
  : list LayoutItem :=
  foldr (λ e out, <[e.1 := e.2]> out) layout done.

Definition compactAxis (layout : list LayoutItem) : list LayoutItem :=
  let statics := filter (λ l, Item.static l = true) layout in
  let sorted := merge_sort entryLe (movable layout) in
  writeBack layout (place statics sorted).

(** An item has stopped when it is at the origin or the cell before it
    is taken. *)
Definition stopped (placed : list LayoutItem) (r : LayoutItem) : Prop :=
  pos r ≤ 0 ∨ ∃ q, q ∈ placed ∧ collides (setPos (pos r - 1) r) q = true.
End Axis.

(** The column clamped into [[0, cols - w]]. *)
Definition clampX (cols : Z) (l : LayoutItem) : LayoutItem :=
  Item.set_x (Z.max 0 (Z.min (Item.x l) (cols - Item.w l))) l.

(** Horizontal compaction clamps the items it may move; the static items go
    through as they are. *)
Definition clampMovable (cols : Z) (l : LayoutItem) : LayoutItem :=
  if Item.static l then l else clampX cols l.

(** Modelled from the spec: [compact] of the utils module is not among the
    sources.  Section 4.3: the static items are fixed obstacles; the others
    are sorted by (y, x) for vertical and by (x, y) for horizontal
    compaction and, in that order, each slides toward the origin one cell
    at a time while its coordinate is positive and the cell before
    collides with no item placed so far; horizontal compaction is the
    mirrored operation along x, the x of the non-static items being clamped
    into [[0, cols - w]] as well; [none] is the identity.  The section does
    not say when the clamp is applied.  It is applied here to the items as
    they come in, before they are sorted and slide: sliding goes toward the
    origin and never takes an item out of the columns again, so that the
    items come out clamped, and no item is left on top of an obstacle by a
    clamp that follows its slide.  Only x and y of an item change, so every
    item keeps its place in the list. *)
Definition compact (layout : list LayoutItem) (compactType : CompactType)
    (cols : Z) : list LayoutItem :=
  match compactType with
  | vertical => compactAxis Item.y Item.x Item.set_y layout
  | horizontal =>
      compactAxis Item.x Item.y Item.set_x (clampMovable cols <$> layout)
  | none => layout
  end.

End Compactor.


(** * The component's surroundings *)

(** A point in pixels, [XYCoord] of the drag library. *)
Module Coord.
Record XYCoord := mk { x : Z; y : Z }.
#[global] Instance coord_eq_dec : EqDecision XYCoord.
Proof. solve_decision. Defined.
End Coord.

Abbreviation XYCoord := Coord.XYCoord.

Module Params.
Record PositionParams := mk {
  cols : Z;
  margin : Z * Z;
  maxRows : Z;
  rowHeight : Z;
  containerWidth : Z;
  containerPadding : Z * Z
}.
End Params.

Abbreviation PositionParams := Params.PositionParams.

(** What the component reads of its container element: its width, its
    bounding rectangle's corner and the scroll offsets of its parent. *)
Module Dom.
Record Container := mk {
  offsetWidth : Z;
  boundingClientRect : XYCoord;
  parentScrollTop : Z;
  parentScrollLeft : Z
}.
End Dom.

(** The names imported from [../constants].  Their values are not among the
    sources. *)
Module constants.
Class Constants := {
  DEFAULT_GROUP : string;
  DEFAULT_ITEMTYPE : string
}.
End constants.

(** The functions imported from [../utils] whose code is not among the
    sources.  The component is modelled over any implementation of them. *)
Module utils.
Class Imports := {
  calcXY : PositionParams → Z → Z → Z → Z → XYCoord;
  compact : list LayoutItem → CompactType → Z → list LayoutItem;
  getAllCollisions : list LayoutItem → LayoutItem → list LayoutItem;
  isEqual : list LayoutItem → list LayoutItem → bool;
  moveElement :
    list LayoutItem → LayoutItem → Z → Z → bool → bool → CompactType → Z →
    list LayoutItem;
  reLayout : list LayoutItem → CompactType → Z → list LayoutItem;
  withLayoutItem :
    list LayoutItem → string → (LayoutItem → LayoutItem) →
    list LayoutItem * option LayoutItem
}.
End utils.

(** [layouts.findIndex((l) => l.i === id)]; [None] stands for [-1]. *)
Definition findIndex (layouts : list LayoutItem) (id : string) : option nat :=
  fst <$> list_find (λ l, Item.i l = id) layouts.

(** Modelled from the spec: [getLayoutItem] of the utils module is not among
    the sources.  It gives the item of the layout that has the identifier
    asked for, the first one as [findIndex] does, or nothing.  The item is
    the array's own element: what the component writes to it is written to
    the layout. *)
Definition getLayoutItem (layouts : list LayoutItem) (id : string)
  : option LayoutItem :=
  snd <$> list_find (λ l, Item.i l = id) layouts.

Definition cloneLayoutItem (l : LayoutItem) : LayoutItem :=
  Item.mk (Item.i l) (Item.x l) (Item.y l) (Item.w l) (Item.h l)
    (Item.minW l) (Item.maxW l) (Item.minH l) (Item.maxH l) (Item.static l)
    (Item.isDraggable l) (Item.isResizable l) (Item.group l)
    (Item.placeholder l).

(** Modelled from the spec: [cloneLayouts] of the utils module is not among
    the sources.  Section 3: the engine deep-copies a layout when it takes
    the snapshot of the state before a drag; the copy has the same items,
    field by field, in the same order. *)
Definition cloneLayouts (layouts : list LayoutItem) : list LayoutItem :=
  cloneLayoutItem <$> layouts.

(** * The component's props, state and instances *)

Module Props.
(** The props the modelled methods read.  A callback prop is the flag that
    the host has passed it. *)
Record LayoutProps := mk {
  group : string;
  layouts : list LayoutItem;
  compactType : CompactType;
  cols : Z;
  margin : Z * Z;
  containerPadding : Z * Z;
  rowHeight : Z;
  maxRows : Z;
  preventCollision : bool;
  onLayoutChange : bool;
  onDrop : bool;
  onResizeStop : bool
}.
End Props.

Abbreviation LayoutProps := Props.LayoutProps.

Module State.
Record LayoutStates := mk {
  offset : option XYCoord;
  accept : list string;
  layouts : list LayoutItem;
  oldLayouts : option (list LayoutItem);
  containerWidth : Z;
  placeholder : option LayoutItem;
  draggingItem : option LayoutItem;
  prevPosition : option XYCoord
}.

Definition set_accept v (s : LayoutStates) : LayoutStates :=
  mk (offset s) v (layouts s) (oldLayouts s) (containerWidth s)
     (placeholder s) (draggingItem s) (prevPosition s).
Definition set_layouts v (s : LayoutStates) : LayoutStates :=
  mk (offset s) (accept s) v (oldLayouts s) (containerWidth s)
     (placeholder s) (draggingItem s) (prevPosition s).
Definition set_oldLayouts v (s : LayoutStates) : LayoutStates :=
  mk (offset s) (accept s) (layouts s) v (containerWidth s)
     (placeholder s) (draggingItem s) (prevPosition s).
Definition set_placeholder v (s : LayoutStates) : LayoutStates :=
  mk (offset s) (accept s) (layouts s) (oldLayouts s) (containerWidth s)
     v (draggingItem s) (prevPosition s).
Definition set_draggingItem v (s : LayoutStates) : LayoutStates :=
  mk (offset s) (accept s) (layouts s) (oldLayouts s) (containerWidth s)
     (placeholder s) v (prevPosition s).
Definition set_prevPosition v (s : LayoutStates) : LayoutStates :=
  mk (offset s) (accept s) (layouts s) (oldLayouts s) (containerWidth s)
     (placeholder s) (draggingItem s) v.
End State.

Abbreviation LayoutStates := State.LayoutStates.

(** An instance of the [Layout] class.  [mountedListeners] counts the
    listeners of the instance's ['mounted'] event. *)
Module Layout.
Record Layout := mk {
  group : string;
  props : LayoutProps;
  state : LayoutStates;
  containerRef : option Dom.Container;
  mountedListeners : nat
}.

Definition set_state v (l : Layout) : Layout :=
  mk (group l) (props l) v (containerRef l) (mountedListeners l).
Definition set_mountedListeners v (l : Layout) : Layout :=
  mk (group l) (props l) (state l) (containerRef l) v.
End Layout.

Abbreviation Layout := Layout.Layout.

(** A call of one of the host's callbacks, by the instance that made it. *)
Inductive HostCall :=
| CallLayoutChange (this : nat) (layouts : list LayoutItem)
| CallDrop (this : nat) (layouts : list LayoutItem) (layoutItem : LayoutItem)
    (item : LayoutItem) (type : string) (group : string)
| CallResizeStop (this : nat) (layouts : list LayoutItem).

(** The module-level variables, and the instances alive.  An instance is
    designated by its reference in [instances]; [groupLayouts] maps a group
    name to the instance registered under it. *)
Module World.
Record World := mk {
  instances : gmap nat Layout;
  groupLayouts : gmap string nat;
  groupKeys : list string;
  groupIndex : nat;
  hoveredGroups : list string;
  calls : list HostCall
}.

Definition set_instances v (w : World) : World :=
  mk v (groupLayouts w) (groupKeys w) (groupIndex w) (hoveredGroups w) (calls w).
Definition set_groupLayouts v (w : World) : World :=
  mk (instances w) v (groupKeys w) (groupIndex w) (hoveredGroups w) (calls w).
Definition set_groupKeys v (w : World) : World :=
  mk (instances w) (groupLayouts w) v (groupIndex w) (hoveredGroups w) (calls w).
Definition set_groupIndex v (w : World) : World :=
  mk (instances w) (groupLayouts w) (groupKeys w) v (hoveredGroups w) (calls w).
Definition set_hoveredGroups v (w : World) : World :=
  mk (instances w) (groupLayouts w) (groupKeys w) (groupIndex w) v (calls w).
Definition set_calls v (w : World) : World :=
  mk (instances w) (groupLayouts w) (groupKeys w) (groupIndex w) (hoveredGroups w) v.

(** The state before any instance is constructed. *)
Definition initial : World := mk ∅ ∅ [] 0%nat [] [].
End World.

Abbreviation World := World.World.

(** * Methods as state transformers that may throw *)

Inductive Error := TypeError.

Inductive Completion (A : Type) :=
| Return (a : A) (w : World)
| Throw (e : Error).
Arguments Return {A} a w.
Arguments Throw {A} e.

Definition M (A : Type) : Type := World → Completion A.

#[global] Instance M_ret : MRet M := λ A a w, Return a w.
#[global] Instance M_bind : MBind M := λ A B k m w,
  match m w with
  | Return a w' => k a w'
  | Throw e => Throw e
  end.

Definition throw {A} (e : Error) : M A := λ _, Throw e.
Definition get : M World := λ w, Return w w.
Definition modify (f : World → World) : M unit := λ w, Return () (f w).

Fixpoint forEach {A} (l : list A) (f : A → M unit) : M unit :=
  match l with
  | [] => mret ()
  | a :: rest => f a;; forEach rest f
  end.

(** The instance a reference designates. *)
Definition getInstance (r : nat) : M Layout := λ w,
  match World.instances w !! r with
  | Some inst => Return inst w
  | None => Throw TypeError
  end.

(** The state of one instance updated, the rest as it is. *)
Definition withState (r : nat) (f : LayoutStates → LayoutStates) (w : World)
  : World :=
  World.set_instances
    (alter (λ inst, Layout.set_state (f (Layout.state inst)) inst) r
           (World.instances w)) w.

(** [setState] merges the update into the instance's state, at once.  React
    may put the merge off to the end of the handler; of the methods below
    only [onDragEnd] reads the state after it has set it
    ([resetDraggingState] reads [layouts]), and there the late merge would
    differ in the placeholder mark of one item of the committed layout
    alone. *)
Definition setState (r : nat) (f : LayoutStates → LayoutStates) : M unit :=
  modify (withState r f).

(** A write to the array [this.state.layouts] itself: the state holds the
    array, so the write shows in the state without any [setState]. *)
Definition inPlace (r : nat) (f : list LayoutItem → list LayoutItem) : M unit :=
  setState r (λ st, State.set_layouts (f (State.layouts st)) st).

Definition call (c : HostCall) : M unit :=
  modify (λ w, World.set_calls (World.calls w ++ [c]) w).

(** A method respects a relation between the state it starts from and the
    state it leaves when every normal completion is in the relation. *)
Definition respects {A} (R : relation World) (m : M A) : Prop :=
  ∀ w a w', m w = Return a w' → R w w'.

(** The calls [onLayoutMaybeChanged] makes: one of [onLayoutChange], with a
    copy of the new layout, when the comparison fails and the host has
    passed the callback. *)
Definition layoutChangeCalls (equal hasCallback : bool) (this : nat)
    (newLayouts : list LayoutItem) : list HostCall :=
  if negb equal && hasCallback then [CallLayoutChange this newLayouts] else [].

(** The counter of the default group names never goes back. *)
Definition counterGrows : relation World :=
  λ w w', (World.groupIndex w ≤ World.groupIndex w')%nat.

(** * The [Layout] class *)

Section Component.
Context `{!utils.Imports, !constants.Constants}.

Definition defaultGroupName (groupIndex : nat) : string :=
  constants.DEFAULT_GROUP +:+ "_" +:+ pretty groupIndex.

(** [layout?.group.indexOf(DEFAULT_GROUP) > -1] *)
Definition usesDefaultGroup (layout : Layout) : bool :=
  bool_decide (is_Some (String.index 0 constants.DEFAULT_GROUP (Layout.group layout))).

(** [layout.event.on('mounted', ...)] for the layout registered under a key,
    when it uses a default group name. *)
Definition listenMounted (groupLayouts : gmap string nat) (key : string)
    (instances : gmap nat Layout) : gmap nat Layout :=
  match groupLayouts !! key with
  | Some r =>
      alter (λ layout,
               if usesDefaultGroup layout
               then Layout.set_mountedListeners (S (Layout.mountedListeners layout)) layout
               else layout) r instances
  | None => instances
  end.

(** The constructor; it gives the reference of the new instance.  The keys of
    [groupLayouts] come in the order of the map. *)
Definition constructor (props : LayoutProps) : M nat := λ w,
  let group := Props.group props in
  let this_group :=
    if decide (group = "") then defaultGroupName (World.groupIndex w) else group in
  let this := fresh (dom (World.instances w)) in
  let groupIndex := S (World.groupIndex w) in
  let groupLayouts := <[this_group := this]> (World.groupLayouts w) in
  let groupKeys := (map_to_list groupLayouts).*1 ++ [constants.DEFAULT_ITEMTYPE] in
  let state :=
    State.mk None groupKeys
      (utils.reLayout (Props.layouts props) (Props.compactType props) (Props.cols props))
      None 0 None None None in
  let instances := <[this := Layout.mk this_group props state None 0%nat]> (World.instances w) in
  let instances :=
    if decide (group = "")
    then foldl (λ acc key, listenMounted groupLayouts key acc) instances groupKeys
    else instances in
  Return this
    (World.mk instances groupLayouts groupKeys groupIndex
       (World.hoveredGroups w) (World.calls w)).

(** The partial state [{ layouts }] the static method returns, or nothing for
    [null]. *)
Definition getDerivedStateFromProps (w : World) (props : LayoutProps)
    (prevState : LayoutStates) : option (list LayoutItem) :=
  if bool_decide (World.hoveredGroups w ≠ [])
     || bool_decide (is_Some (State.placeholder prevState))
  then None
  else
    if negb (utils.isEqual (Props.layouts props) (State.layouts prevState))
    then Some (utils.reLayout (Props.layouts props) (Props.compactType props) (Props.cols props))
    else None.

(** React merges what [getDerivedStateFromProps] returns into the state. *)
Definition deriveState (w : World) (props : LayoutProps) (prevState : LayoutStates)
  : LayoutStates :=
  match getDerivedStateFromProps w props prevState with
  | Some layouts => State.set_layouts layouts prevState
  | None => prevState
  end.

Definition componentWillUnmount (this : nat) : M unit :=
  inst ← getInstance this;
  modify (λ w, World.set_groupLayouts (delete (Layout.group inst) (World.groupLayouts w)) w).

Definition onLayoutMaybeChanged (this : nat) (newLayouts : list LayoutItem)
    (oldLayouts : option (list LayoutItem)) : M bool :=
  inst ← getInstance this;
  let oldLayouts := default (State.layouts (Layout.state inst)) oldLayouts in
  let equal := utils.isEqual oldLayouts newLayouts in
  (if negb equal && Props.onLayoutChange (Layout.props inst)
   then call (CallLayoutChange this (cloneLayouts newLayouts))
   else mret ());;
  mret equal.

Definition getWidth (inst : Layout) : Z :=
  match Layout.containerRef inst with
  | Some containerDOM => Dom.offsetWidth containerDOM
  | None => 0
  end.

(** [isGroupItem]: the type is looked up among the names the registry holds
    (see [inheritedNames]). *)
Definition isGroupItem (this : nat) (itemType : string) : M bool :=
  inst ← getInstance this;
  w ← get;
  mret (bool_decide (itemType = Layout.group inst)
        || bool_decide (is_Some (World.groupLayouts w !! itemType))).

(** [removeOtherGroupItem]: it reads nothing of [this].  The group is
    looked up among the names the registry holds (see [inheritedNames]). *)
Definition removeOtherGroupItem (layoutItem : LayoutItem) (group : string)
  : M unit :=
  w ← get;
  match World.groupLayouts w !! group with
  | None => mret ()
  | Some r =>
      layout ← getInstance r;
      let layouts := State.layouts (Layout.state layout) in
      let compactType := Props.compactType (Layout.props layout) in
      let cols := Props.cols (Layout.props layout) in
      match findIndex layouts (Item.i layoutItem) with
      | None => mret ()
      | Some index =>
          (* layouts.splice(index, 1) *)
          let layouts := delete index layouts in
          inPlace r (λ _, layouts);;
          setState r (λ st,
            State.set_layouts (utils.compact layouts compactType cols)
              (State.set_draggingItem None (State.set_prevPosition None st)))
      end
  end.

Definition removeHoverdGroupItem (this : nat) (layoutItem : LayoutItem)
  : M unit :=
  inst ← getInstance this;
  w ← get;
  if bool_decide (1 < length (World.hoveredGroups w))%nat
  then
    forEach (World.hoveredGroups w) (λ group,
      if bool_decide (group ≠ Layout.group inst)
      then removeOtherGroupItem layoutItem group
      else mret ());;
    modify (World.set_hoveredGroups [Layout.group inst])
  else mret ().

Definition getPositionParams (inst : Layout) : PositionParams :=
  let props := Layout.props inst in
  Params.mk (Props.cols props) (Props.margin props) (Props.maxRows props)
    (Props.rowHeight props) (getWidth inst) (Props.containerPadding props).

(** The method [calcXY] of the class.  Reading the parent of a container
    that is not there, or the corner of an offset that is [null], throws. *)
Definition calcXY (this : nat) (item : LayoutItem) (offset : XYCoord)
  : M XYCoord :=
  inst ← getInstance this;
  let positionParams := getPositionParams inst in
  match Layout.containerRef inst, State.offset (Layout.state inst) with
  | Some containerDOM, Some parentOffset =>
      let x := Coord.x offset - Coord.x parentOffset + Dom.parentScrollLeft containerDOM in
      let y := Coord.y offset - Coord.y parentOffset + Dom.parentScrollTop containerDOM in
      mret (utils.calcXY positionParams y x (Item.w item) (Item.h item))
  | _, _ => throw TypeError
  end.

(** [moveItem(layoutItem, offset)].  The item handed over is an element of
    [this.state.layouts] in every caller: it is given by its index [k].
    Only the identifier of [draggingItem] is ever read back, and it is the
    one of the item. *)
Definition moveItem (this : nat) (k : nat) (offset : XYCoord) : M unit :=
  inst ← getInstance this;
  match Layout.containerRef inst with
  | None => mret ()
  | Some _ =>
      let layouts := State.layouts (Layout.state inst) in
      let prevPosition := State.prevPosition (Layout.state inst) in
      match layouts !! k with
      | None => throw TypeError
      | Some layoutItem =>
          position ← calcXY this layoutItem offset;
          (* layoutItem.placeholder = true *)
          let layoutItem := Item.set_placeholder (Some true) layoutItem in
          let layouts := <[k := layoutItem]> layouts in
          inPlace this (λ _, layouts);;
          if bool_decide (prevPosition = Some position)
          then mret ()
          else
            let props := Layout.props inst in
            let newLayouts :=
              utils.moveElement layouts layoutItem (Coord.x position) (Coord.y position)
                true (Props.preventCollision props) (Props.compactType props)
                (Props.cols props) in
            setState this (λ st,
              State.set_draggingItem (Some layoutItem)
                (State.set_prevPosition (Some position)
                   (State.set_layouts
                      (utils.compact newLayouts (Props.compactType props) (Props.cols props))
                      st)))
      end
  end.

Definition resetDraggingState (this : nat) (id : string) : M unit :=
  inst ← getInstance this;
  let layouts := State.layouts (Layout.state inst) in
  (* const layoutItem = getLayoutItem(layouts, i); delete layoutItem.placeholder *)
  match findIndex layouts id with
  | Some k => inPlace this (alter (Item.set_placeholder None) k)
  | None => mret ()
  end;;
  modify (World.set_hoveredGroups []);;
  setState this (λ st,
    State.set_draggingItem None
      (State.set_prevPosition None (State.set_oldLayouts None st))).

(** [onDrop].  [draggingItem.i] throws when no item is being dragged, and
    [delete layoutItem.placeholder] throws when [layouts[index]] is
    [undefined], that is when [findIndex] has given [-1]. *)
Definition onDrop (this : nat) (dragItem : LayoutItem) (itemType : string)
  : M unit :=
  inst ← getInstance this;
  let layouts := State.layouts (Layout.state inst) in
  let oldLayouts := State.oldLayouts (Layout.state inst) in
  match State.draggingItem (Layout.state inst) with
  | None => throw TypeError
  | Some draggingItem =>
      match findIndex layouts (Item.i draggingItem) with
      | None => throw TypeError
      | Some index =>
          match layouts !! index with
          | None => throw TypeError (* not reached: [index] is in range *)
          | Some layoutItem =>
              (* delete layoutItem.placeholder *)
              let layoutItem := Item.set_placeholder None layoutItem in
              let layouts := <[index := layoutItem]> layouts in
              inPlace this (λ _, layouts);;
              (if bool_decide (itemType = Layout.group inst)
               then
                 onLayoutMaybeChanged this layouts oldLayouts;; mret ()
               else
                 w ← get;
                 let sourceLayout := World.groupLayouts w !! itemType in
                 (* layouts.splice(index, 1) *)
                 inPlace this (delete index);;
                 match sourceLayout with
                 | Some source =>
                     src ← getInstance source;
                     onLayoutMaybeChanged source
                       (State.layouts (Layout.state src))
                       (State.oldLayouts (Layout.state src));;
                     mret ()
                 | None => mret ()
                 end);;
              resetDraggingState this (Item.i draggingItem);;
              inst ← getInstance this;
              if Props.onDrop (Layout.props inst)
              then call (CallDrop this (State.layouts (Layout.state inst)) layoutItem
                           dragItem itemType (Layout.group inst))
              else mret ()
          end
      end
  end.

Definition onDragStart (this : nat) : M unit :=
  inst ← getInstance this;
  setState this
    (State.set_oldLayouts (Some (cloneLayouts (State.layouts (Layout.state inst))))).

(** [onDragEnd].  Without a snapshot [layouts] becomes [null], which the
    state of this model does not hold, and [resetDraggingState] looks an
    item up in it: the case is a throw. *)
Definition onDragEnd (this : nat) (item : LayoutItem) (didDrop : bool)
    (itemType : string) : M unit :=
  if didDrop then mret ()
  else
    groupItem ← isGroupItem this itemType;
    if (groupItem : bool)
    then
      inst ← getInstance this;
      match State.oldLayouts (Layout.state inst) with
      | Some oldLayouts =>
          setState this (State.set_layouts oldLayouts);;
          resetDraggingState this (Item.i item)
      | None => throw TypeError
      end
    else mret ().

(** [onCardItemDragEnd].  Copying a snapshot that is [null] throws. *)
Definition onCardItemDragEnd (this : nat) (item : LayoutItem) (didDrop : bool)
    (itemType : string) : M unit :=
  inst ← getInstance this;
  let layouts := State.layouts (Layout.state inst) in
  let oldLayouts := State.oldLayouts (Layout.state inst) in
  match State.draggingItem (Layout.state inst) with
  | None => mret ()
  | Some draggingItem =>
      if negb didDrop
      then
        match findIndex layouts (Item.i draggingItem) with
        | Some index =>
            (* layouts.splice(index, 1) *)
            inPlace this (delete index);;
            match oldLayouts with
            | Some oldLayouts =>
                setState this (λ st,
                  State.set_draggingItem None
                    (State.set_prevPosition None
                       (State.set_layouts (cloneLayouts oldLayouts) st)))
            | None => throw TypeError
            end
        | None => mret ()
        end
      else onDrop this item itemType
  end.

(** [Math.min(least, v)], with [None] for [Infinity]. *)
Definition minInf (least : option Z) (v : Z) : option Z :=
  match least with
  | None => Some v
  | Some m => Some (Z.min m v)
  end.

(** The least coordinate, beyond [from], of the colliding items. *)
Definition least (coord : LayoutItem → Z) (from : Z) (collisions : list LayoutItem)
  : option Z :=
  foldl (λ acc layoutItem, if bool_decide (from < coord layoutItem)
                           then minInf acc (coord layoutItem) else acc)
        None collisions.

(** [m] is the least coordinate, beyond [from], of the colliding items. *)
Definition isLeast (coord : LayoutItem → Z) (from : Z)
    (collisions : list LayoutItem) (m : Z) : Prop :=
  (∃ c, c ∈ collisions ∧ from < coord c ∧ coord c = m) ∧
  (∀ c, c ∈ collisions → from < coord c → m ≤ coord c).

(** No colliding item lies beyond [from]. *)
Definition noneBeyond (coord : LayoutItem → Z) (from : Z)
    (collisions : list LayoutItem) : Prop :=
  ∀ c, c ∈ collisions → coord c ≤ from.

(** The items [getAllCollisions] finds for the item at the size asked for,
    the item itself left out. *)
Definition resizeCollisions (layouts : list LayoutItem) (l : LayoutItem) (w h : Z)
  : list LayoutItem :=
  filter (λ layoutItem, Item.i layoutItem ≠ Item.i l)
         (utils.getAllCollisions layouts (Item.set_h h (Item.set_w w l))).

(** The function [onResize] hands to [withLayoutItem]. *)
Definition onResizeItem (layouts : list LayoutItem) (preventCollision : bool)
    (w h : Z) (l : LayoutItem) : LayoutItem :=
  if preventCollision
  then
    let collisions := resizeCollisions layouts l w h in
    if bool_decide (0 < length collisions)%nat
    then
      let leastX := least Item.x (Item.x l) collisions in
      let leastY := least Item.y (Item.y l) collisions in
      let l := match leastX with Some v => Item.set_w (v - Item.x l) l | None => l end in
      match leastY with Some v => Item.set_h (v - Item.y l) l | None => l end
    else Item.set_h h (Item.set_w w l)
  else Item.set_h h (Item.set_w w l).

Definition onResize (this : nat) (item : LayoutItem) (w h : Z) : M unit :=
  inst ← getInstance this;
  let layouts := State.layouts (Layout.state inst) in
  let props := Layout.props inst in
  let '(newLayouts, l) :=
    utils.withLayoutItem layouts (Item.i item)
      (onResizeItem layouts (Props.preventCollision props) w h) in
  match l with
  | None => mret ()
  | Some l =>
      setState this (λ st,
        State.set_placeholder
          (Some (Item.fixed (Item.i item) (Item.x l) (Item.y l) (Item.w l) (Item.h l)))
          (State.set_layouts
             (utils.compact newLayouts (Props.compactType props) (Props.cols props)) st))
  end.

Definition onResizeStop (this : nat) : M unit :=
  inst ← getInstance this;
  let layouts := State.layouts (Layout.state inst) in
  let oldLayouts := State.oldLayouts (Layout.state inst) in
  let props := Layout.props inst in
  let newLayouts := utils.compact layouts (Props.compactType props) (Props.cols props) in
  setState this (λ st, State.set_placeholder None (State.set_oldLayouts None st));;
  onLayoutMaybeChanged this newLayouts oldLayouts;;
  if Props.onResizeStop props then call (CallResizeStop this newLayouts) else mret ().

End Component.

(** * The registry of groups *)

(** The registry is consistent when every name leads to a live instance of
    that group. *)
Definition registered (w : World) : Prop :=
  map_Forall (λ g r, Layout.group <$> World.instances w !! r = Some g)
             (World.groupLayouts w).

#[global] Instance registered_dec w : Decision (registered w).
Proof. unfold registered. apply _. Defined.


(** The registry stays consistent. *)
Definition staysRegistered : relation World :=
  λ w w', registered w → registered w'.

Section Released.
Context `{!utils.Imports}.

(** What [removeOtherGroupItem] leaves of the instance it is applied to. *)
Definition released (layoutItem : LayoutItem) (layout : Layout) : Layout :=
  let layouts := State.layouts (Layout.state layout) in
  match findIndex layouts (Item.i layoutItem) with
  | Some index =>
      Layout.set_state
        (State.set_layouts
           (utils.compact (delete index layouts)
              (Props.compactType (Layout.props layout)) (Props.cols (Layout.props layout)))
           (State.set_draggingItem None
              (State.set_prevPosition None (Layout.state layout))))
        layout
  | None => layout
  end.

(** The instances that a hover tick over the group [current] makes release
    the item: the ones registered under another group of [groups]. *)
Definition releasing (w : World) (groups : list string) (current : string)
    (r : nat) (layout : Layout) : bool :=
  bool_decide (Layout.group layout ∈ groups)
  && bool_decide (Layout.group layout ≠ current)
  && bool_decide (World.groupLayouts w !! Layout.group layout = Some r).

End Released.

(** * Runs of the component *)

(** What the host, the drag library and the component's own [hover] ask of
    an instance, one call after the other. *)
Inductive Event :=
| Construct (props : LayoutProps)
| WillUnmount (this : nat)
| RemoveHoverdGroupItem (this : nat) (layoutItem : LayoutItem)
| MoveItem (this : nat) (k : nat) (offset : XYCoord)
| OnDrop (this : nat) (dragItem : LayoutItem) (itemType : string)
| OnDragStart (this : nat)
| OnDragEnd (this : nat) (item : LayoutItem) (didDrop : bool) (itemType : string)
| OnCardItemDragEnd (this : nat) (item : LayoutItem) (didDrop : bool) (itemType : string)
| OnResize (this : nat) (item : LayoutItem) (w h : Z)
| OnResizeStop (this : nat).

Section Runs.
Context `{!utils.Imports, !constants.Constants}.

Definition fire (e : Event) : M unit :=
  match e with
  | Construct props => constructor props;; mret ()
  | WillUnmount this => componentWillUnmount this
  | RemoveHoverdGroupItem this layoutItem => removeHoverdGroupItem this layoutItem
  | MoveItem this k offset => moveItem this k offset
  | OnDrop this dragItem itemType => onDrop this dragItem itemType
  | OnDragStart this => onDragStart this
  | OnDragEnd this item didDrop itemType => onDragEnd this item didDrop itemType
  | OnCardItemDragEnd this item didDrop itemType =>
      onCardItemDragEnd this item didDrop itemType
  | OnResize this item w h => onResize this item w h
  | OnResizeStop this => onResizeStop this
  end.

Definition run (events : list Event) : M unit := forEach events fire.

End Runs.

(** * Mounting, the window and React

    The rest of the life of an instance: what [componentDidMount] and the
    listener of the window's [resize] do, and what React does to the
    instance between the calls of its methods. *)

Section Mounting.
Context `{!utils.Imports, !constants.Constants}.

(** [setState({ offset, containerWidth })] *)
Definition set_measures (offset : XYCoord) (containerWidth : Z) (s : LayoutStates)
  : LayoutStates :=
  State.mk (Some offset) (State.accept s) (State.layouts s) (State.oldLayouts s)
    containerWidth (State.placeholder s) (State.draggingItem s) (State.prevPosition s).

(** [setState({ containerWidth })] *)
Definition set_containerWidth (containerWidth : Z) (s : LayoutStates) : LayoutStates :=
  State.mk (State.offset s) (State.accept s) (State.layouts s) (State.oldLayouts s)
    containerWidth (State.placeholder s) (State.draggingItem s) (State.prevPosition s).

(** The closure [initStates] of [componentDidMount], over the element the
    ref held when the component mounted. *)
Definition initStates (this : nat) (containerDOM : option Dom.Container) : M unit :=
  match containerDOM with
  | Some containerDOM =>
      setState this
        (set_measures (Dom.boundingClientRect containerDOM) (Dom.offsetWidth containerDOM))
  | None => mret ()
  end.

(** [this.event.emit('mounted')]: each of the listeners the constructors have
    put on the instance sets [accept] to the [groupKeys] of the moment. *)
Definition emitMounted (this : nat) : M unit :=
  inst ← getInstance this;
  forEach (replicate (Layout.mountedListeners inst) ()) (λ _,
    w ← get;
    setState this (State.set_accept (World.groupKeys w))).

(** [componentDidMount].  [nested] is the prop of that name, which the record
    of the props does not hold.  For a nested layout [initStates] is left to
    a timer: it is not run here, and comes later with the element the ref
    held at this moment.  The subscriptions to the window's [resize] and to
    the end of the drag of a card are the host's to deliver: [resize] and
    [onCardItemDragEnd] are called from outside. *)
Definition componentDidMount (this : nat) (nested : bool) : M unit :=
  inst ← getInstance this;
  let containerDOM := Layout.containerRef inst in
  (if nested then mret () else initStates this containerDOM);;
  inst ← getInstance this;
  onLayoutMaybeChanged this (State.layouts (Layout.state inst))
    (Some (Props.layouts (Layout.props inst)));;
  emitMounted this.

Definition resize (this : nat) : M unit :=
  inst ← getInstance this;
  let containerWidth := State.containerWidth (Layout.state inst) in
  match Layout.containerRef inst with
  | Some containerDOM =>
      if bool_decide (Dom.offsetWidth containerDOM ≠ containerWidth)
      then setState this (set_containerWidth (Dom.offsetWidth containerDOM))
      else mret ()
  | None => mret ()
  end.

(** React sets [containerRef.current] to the element it has rendered for
    [<div ref={this.containerRef}>], and to [null] when it takes it away. *)
Definition attachRef (this : nat) (current : option Dom.Container) : M unit :=
  getInstance this;;
  modify (λ w,
    World.set_instances
      (alter (λ inst, Layout.mk (Layout.group inst) (Layout.props inst)
                        (Layout.state inst) current (Layout.mountedListeners inst))
             this (World.instances w)) w).

(** React hands new props to the instance: the state is the one derived from
    them by [getDerivedStateFromProps].  [this.group] is assigned by the
    constructor alone. *)
Definition receiveProps (this : nat) (props : LayoutProps) : M unit :=
  getInstance this;;
  modify (λ w,
    World.set_instances
      (alter (λ inst, Layout.mk (Layout.group inst) props
                        (deriveState w props (Layout.state inst))
                        (Layout.containerRef inst) (Layout.mountedListeners inst))
             this (World.instances w)) w).

End Mounting.

(** Everything that happens to the instances: the calls of [Event], the
    mounting, the timer of a nested layout, the window's [resize], and
    React's own steps. *)
Inductive Action :=
| Fire (e : Event)
| DidMount (this : nat) (nested : bool)
| InitStates (this : nat) (containerDOM : option Dom.Container)
| Resize (this : nat)
| AttachRef (this : nat) (current : option Dom.Container)
| ReceiveProps (this : nat) (props : LayoutProps).

Section Performs.
Context `{!utils.Imports, !constants.Constants}.

Definition perform (a : Action) : M unit :=
  match a with
  | Fire e => fire e
  | DidMount this nested => componentDidMount this nested
  | InitStates this containerDOM => initStates this containerDOM
  | Resize this => resize this
  | AttachRef this current => attachRef this current
  | ReceiveProps this props => receiveProps this props
  end.

Definition performAll (actions : list Action) : M unit := forEach actions perform.

End Performs.

(** The instance an action is addressed to, for the actions that are
    addressed to one and go through none of the others: the constructor
    puts listeners on the instances there are, [componentWillUnmount]
    writes to the registry, and [removeHoverdGroupItem] is there to write to
    the other instances. *)
Definition target (a : Action) : option nat :=
  match a with
  | Fire (Construct _) | Fire (WillUnmount _) | Fire (RemoveHoverdGroupItem _ _) => None
  | Fire (MoveItem this _ _) | Fire (OnDrop this _ _) | Fire (OnDragStart this)
  | Fire (OnDragEnd this _ _ _) | Fire (OnCardItemDragEnd this _ _ _)
  | Fire (OnResize this _ _ _) | Fire (OnResizeStop this)
  | DidMount this _ | InitStates this _ | Resize this | AttachRef this _
  | ReceiveProps this _ => Some this
  end.

(** A drag or a resize under way asks these of the instances, tick after
    tick. *)
Definition isTick (e : Event) : bool :=
  match e with
  | MoveItem _ _ _ | RemoveHoverdGroupItem _ _ | OnResize _ _ _ _ => true
  | _ => false
  end.

(** * What the methods leave as it is *)

(** Every instance is still there, with what [proj] reads of it. *)
Definition keeps {A} (proj : Layout → A) : relation World :=
  λ w w', ∀ r inst,
    World.instances w !! r = Some inst →
    ∃ inst', World.instances w' !! r = Some inst' ∧ proj inst' = proj inst.

(** The group of an instance and the snapshot it holds. *)
Definition snapshotOf (inst : Layout) : string * option (list LayoutItem) :=
  (Layout.group inst, State.oldLayouts (Layout.state inst)).

(** Only the instance [this] is written to; the registry, the keys and the
    counter are as they were. *)
Definition onlyWrites (this : nat) : relation World :=
  λ w w',
    (∀ r, r ≠ this → World.instances w' !! r = World.instances w !! r) ∧
    World.groupLayouts w' = World.groupLayouts w ∧
    World.groupKeys w' = World.groupKeys w ∧
    World.groupIndex w' = World.groupIndex w.

(** Every instance is still there, of the same group, with the listeners of
    its ['mounted'] event it had, or more. *)
Definition listenersGrow : relation World :=
  λ w w', ∀ r inst,
    World.instances w !! r = Some inst →
    ∃ inst',
      World.instances w' !! r = Some inst' ∧
      Layout.group inst' = Layout.group inst ∧
      (Layout.mountedListeners inst ≤ Layout.mountedListeners inst')%nat.

(** The measures [componentDidMount] has taken when it returns. *)
Definition measured (nested : bool) (inst : Layout) : option XYCoord * Z :=
  match nested, Layout.containerRef inst with
  | false, Some containerDOM =>
      (Some (Dom.boundingClientRect containerDOM), Dom.offsetWidth containerDOM)
  | _, _ => (State.offset (Layout.state inst), State.containerWidth (Layout.state inst))
  end.

Section AcceptOf.
Context `{!constants.Constants}.

(** What decides the groups an instance accepts: its group, and, when it is
    not a default group, its listeners and, as long as it has none, the
    value of [accept]. *)
Definition acceptOf (inst : Layout)
  : string * option (nat * option (list string)) :=
  (Layout.group inst,
   if usesDefaultGroup inst then None
   else Some (Layout.mountedListeners inst,
              match Layout.mountedListeners inst with
              | O => Some (State.accept (Layout.state inst))
              | S _ => None
              end)).

End AcceptOf.

(** * An implementation of the imports

    The engine of the specification where this file models it, and plain
    stand-ins for the rest: enough to run the component on concrete
    layouts. *)

Module Sample.

Definition calcXY (p : PositionParams) (pixelY pixelX w h : Z) : XYCoord :=
  let colWidth :=
    (Params.containerWidth p - (Params.margin p).1 * (Params.cols p - 1)
     - 2 * (Params.containerPadding p).1) / Params.cols p in
  let x := (pixelX - (Params.containerPadding p).1) / (colWidth + (Params.margin p).1) in
  let y := (pixelY - (Params.containerPadding p).2)
           / (Params.rowHeight p + (Params.margin p).2) in
  Coord.mk (Z.max 0 (Z.min x (Params.cols p - w))) (Z.max 0 y).

Definition moveElement (layout : list LayoutItem) (l : LayoutItem) (x y : Z)
    (isUserAction preventCollision : bool) (compactType : CompactType) (cols : Z)
  : list LayoutItem :=
  (λ l', if bool_decide (Item.i l' = Item.i l) then Item.set_y y (Item.set_x x l') else l')
    <$> layout.

Definition withLayoutItem (layout : list LayoutItem) (itemKey : string)
    (cb : LayoutItem → LayoutItem) : list LayoutItem * option LayoutItem :=
  match list_find (λ l, Item.i l = itemKey) layout with
  | Some (k, l) => (<[k := cb l]> layout, Some (cb l))
  | None => (layout, None)
  end.

#[global] Instance imports : utils.Imports := {|
  utils.calcXY := calcXY;
  utils.compact := Compactor.compact;
  utils.getAllCollisions := CollisionDetector.getAllCollisions;
  utils.isEqual := λ a b, bool_decide (a = b);
  utils.moveElement := moveElement;
  utils.reLayout := Compactor.compact;
  utils.withLayoutItem := withLayoutItem
|}.

#[global] Instance names : constants.Constants := {|
  constants.DEFAULT_GROUP := "default_group";
  constants.DEFAULT_ITEMTYPE := "card"
|}.

Definition props (group : string) (layouts : list LayoutItem) : LayoutProps :=
  Props.mk group layouts vertical 12 (10, 10) (10, 10) 30 1000 false true true true.

Definition container : Dom.Container := Dom.mk 1200 (Coord.mk 0 0) 0 0.

(** A mounted instance of a group holding the given state. *)
Definition mounted (group : string) (layouts : list LayoutItem)
    (state : LayoutStates) : Layout :=
  Layout.mk group (props group layouts) state (Some container) 0%nat.

Definition idle (layouts : list LayoutItem) : LayoutStates :=
  State.mk (Some (Coord.mk 0 0)) [] layouts None 1200 None None None.

(** The state in the middle of a drag: the layout as it is now, the snapshot
    taken when the drag started, the item dragged and the cell it is in. *)
Definition dragging (layouts snapshot : list LayoutItem) (item : LayoutItem)
    (cell : XYCoord) : LayoutStates :=
  State.mk (Some (Coord.mk 0 0)) [] layouts (Some snapshot) 1200 None
    (Some item) (Some cell).

(** The instances given, each registered under its group, and the groups
    hovered. *)
Definition world (layouts : list Layout) (hoveredGroups : list string) : World :=
  World.mk (list_to_map (imap (λ k l, (k, l)) layouts))
    (list_to_map (imap (λ k l, (Layout.group l, k)) layouts))
    ((Layout.group <$> layouts) ++ ["card"]) (length layouts) hoveredGroups [].

(** The state a method leaves when it returns. *)
Definition after {A} (m : M A) (w : World) : World :=
  match m w with
  | Return _ w' => w'
  | Throw _ => w
  end.

Definition a0 : LayoutItem := Item.box "a" 0 0 2 1.
Definition b0 : LayoutItem := Item.box "b" 2 0 2 1.
Definition c0 : LayoutItem := Item.box "c" 0 1 4 1.

(** A drag of [a] in group [g], moved to the cell (2, 0) over [b], which has
    gone down a row. *)
Definition midDrag : Layout :=
  mounted "g" [a0; b0]
    (dragging [Item.set_placeholder (Some true) (Item.box "a" 2 0 2 1); Item.box "b" 2 1 2 1]
       [a0; b0] a0 (Coord.mk 2 0)).

(** Three groups hovered in turn during the drag of [a], the last one
    being [g3]. *)
Definition threeGroups : World :=
  world [mounted "g1" [a0; b0] (idle [a0; b0]);
         mounted "g2" [a0; c0] (idle [a0; c0]);
         mounted "g3" [] (dragging [a0] [] a0 (Coord.mk 0 0))]
    ["g1"; "g2"; "g3"].

End Sample.

(** * Facts about compaction *)

Module CompactorFacts.
Import CollisionDetector Compactor.


Lemma keyLe_trans a b c : keyLe a b → keyLe b c → keyLe a c.
Proof. unfold keyLe. lia. Qed.

Lemma keyLe_total a b : keyLe a b ∨ keyLe b a.
Proof. unfold keyLe. lia. Qed.

Lemma keyLt_le_trans a b c : keyLt a b → keyLe b c → keyLt a c.
Proof. unfold keyLt, keyLe. lia. Qed.

Lemma keyLe_lt_trans a b c : keyLe a b → keyLt b c → keyLt a c.
Proof. unfold keyLt, keyLe. lia. Qed.


Lemma keyLe_ne_lt a b : keyLe a b → a.2 ≠ b.2 → keyLt a b.
Proof. unfold keyLt, keyLe. lia. Qed.

(** The one-dimensional fact behind idempotence: an interval that meets
    [[b1, b2)] when it starts at [p - 1] but not when it starts at [p]
    has [b1] before [p]. *)
Lemma intersects_edge p len b1 b2 :
  intersects (p - 1) (p - 1 + len) b1 b2 = true →
  intersects p (p + len) b1 b2 = false →
  b1 < p.
Proof.
  unfold intersects. intros H1 H2.
  apply bool_decide_eq_true in H1. apply bool_decide_eq_false in H2. lia.
Qed.

(** ** Lists of entries *)

Lemma indexed_elem_of (layout : list LayoutItem) (e : Entry) :
  e ∈ indexed layout ↔ layout !! e.1 = Some e.2.
Proof.
  unfold indexed. rewrite elem_of_lookup_imap. split.
  - by intros (k & l & -> & Hl).
  - destruct e as [k l]. intros Hl. by exists k, l.
Qed.

Lemma indexed_fst (layout : list LayoutItem) :
  (indexed layout).*1 = seq 0 (length layout).
Proof.
  unfold indexed. rewrite fmap_imap.
  transitivity (id <$> seq 0 (length layout)); [|apply list_fmap_id].
  rewrite <- imap_seq_0. by apply imap_ext.
Qed.

Lemma movable_elem_of layout (e : Entry) :
  e ∈ movable layout ↔ layout !! e.1 = Some e.2 ∧ Item.static e.2 = false.
Proof.
  unfold movable. rewrite list_elem_of_filter, indexed_elem_of. tauto.
Qed.

Lemma movable_NoDup layout : NoDup (movable layout).*1.
Proof.
  apply (sublist_NoDup _ (indexed layout).*1).
  - rewrite indexed_fst. apply NoDup_seq.
  - apply fmap_sublist, sublist_filter.
Qed.

Lemma writeBack_length layout (done : list Entry) :
  length (writeBack layout done) = length layout.
Proof.
  induction done as [|e done IH]; simpl; [done|]. by rewrite length_insert.
Qed.

Lemma writeBack_lookup_notin layout (done : list Entry) k :
  k ∉ done.*1 → writeBack layout done !! k = layout !! k.
Proof.
  induction done as [|e done IH]; simpl; [done|].
  rewrite not_elem_of_cons. intros [Hne Hnotin].
  rewrite list_lookup_insert_ne by done. by apply IH.
Qed.

Lemma writeBack_lookup_in layout (done : list Entry) k v :
  NoDup done.*1 → (k, v) ∈ done → (k < length layout)%nat →
  writeBack layout done !! k = Some v.
Proof.
  intros Hnd Hin Hk. induction done as [|e done IH]; simpl in *.
  { by apply elem_of_nil in Hin. }
  apply NoDup_cons in Hnd as [Hnotin Hnd].
  apply elem_of_cons in Hin as [<- | Hin]; simpl.
  - apply list_lookup_insert_eq. by rewrite writeBack_length.
  - assert (e.1 ≠ k) as Hne.
    { intros <-. apply Hnotin.
      by apply (list_elem_of_fmap_2 fst) in Hin. }
    rewrite list_lookup_insert_ne by done. by apply IH.
Qed.



(** In a sorted list, whatever is strictly below an element stands before
    it. *)
Lemma sorted_lookup_le {A} (R : relation A) (l : list A) j n a b :
  StronglySorted R l → l !! j = Some a → l !! n = Some b → (j < n)%nat →
  R a b.
Proof.
  intros Hs. revert j n. induction Hs as [|c l Hs IH Hall]; intros j n Ha Hb Hjn;
    [done|].
  destruct n as [|n]; [lia|]. destruct j as [|j]; simpl in *.
  - injection Ha as ->. rewrite Forall_forall in Hall.
    apply Hall. by eapply list_elem_of_lookup_2.
  - apply (IH j n); [done | done | lia].
Qed.

Section AxisFacts.
Variable pos sec : LayoutItem → Z.
Variable setPos : Z → LayoutItem → LayoutItem.

Hypothesis pos_set : ∀ v l, pos (setPos v l) = v.
Hypothesis sec_set : ∀ v l, sec (setPos v l) = sec l.
Hypothesis static_set : ∀ v l, Item.static (setPos v l) = Item.static l.
Hypothesis id_set : ∀ v l, Item.i (setPos v l) = Item.i l.
Hypothesis set_pos : ∀ l, setPos (pos l) l = l.
Hypothesis set_set : ∀ v v' l, setPos v (setPos v' l) = setPos v l.
Hypothesis edge : ∀ l q p,
  collides (setPos (p - 1) l) q = true →
  collides (setPos p l) q = false → pos q < p.

Local Abbreviation slide := (slide pos setPos).
Local Abbreviation compactItem := (compactItem pos setPos).
Local Abbreviation place := (place pos setPos).
Local Abbreviation entryLe := (entryLe pos sec).
Local Abbreviation entryLt := (entryLt pos sec).
Local Abbreviation compactAxis := (compactAxis pos sec setPos).

Local Abbreviation stopped := (stopped pos setPos).


Lemma existsb_elem_of (f : LayoutItem → bool) placed :
  existsb f placed = true ↔ ∃ q, q ∈ placed ∧ f q = true.
Proof.
  rewrite existsb_exists. setoid_rewrite list_elem_of_In. done.
Qed.

Lemma slide_inv fuel placed l :
  ∃ p, slide fuel placed l = setPos p l ∧
       (p = pos l ∨
        (0 ≤ p < pos l ∧ ∀ q, q ∈ placed → collides (setPos p l) q = false)).
Proof.
  revert l. induction fuel as [|fuel IH]; intros l; simpl.
  { exists (pos l). rewrite set_pos. auto. }
  destruct (bool_decide (0 < pos l)) eqn:Hpos; simpl;
    [|exists (pos l); rewrite set_pos; auto].
  destruct (existsb _ placed) eqn:Hex; simpl;
    [exists (pos l); rewrite set_pos; auto|].
  apply bool_decide_eq_true in Hpos.
  assert (Hfree : ∀ q, q ∈ placed → collides (setPos (pos l - 1) l) q = false).
  { intros q Hq. destruct (collides _ q) eqn:Hc; [|done].
    assert (existsb (collides (setPos (pos l - 1) l)) placed = true) as Hex'
      by (apply existsb_elem_of; eauto).
    congruence. }
  destruct (IH (setPos (pos l - 1) l)) as (p & Hp & Hcase).
  rewrite set_set, pos_set in *.
  exists p. split; [done|]. right.
  destruct Hcase as [-> | [Hlt Hq]]; [split; [lia | done]|].
  split; [lia|]. intros q Hin. specialize (Hq q Hin).
  by rewrite ?set_set in Hq.
Qed.

Lemma slide_stopped fuel placed l :
  (Z.to_nat (pos l) ≤ fuel)%nat → stopped placed (slide fuel placed l).
Proof.
  revert l. induction fuel as [|fuel IH]; intros l Hfuel; simpl.
  { left. lia. }
  destruct (bool_decide (0 < pos l)) eqn:Hpos; simpl.
  - destruct (existsb _ placed) eqn:Hex; simpl.
    + right. by apply existsb_elem_of.
    + apply IH. rewrite pos_set. apply bool_decide_eq_true in Hpos. lia.
  - left. apply bool_decide_eq_false in Hpos. lia.
Qed.


(** What [compactItem] does to an item. *)
Lemma compactItem_inv placed l :
  ∃ p, compactItem placed l = setPos p l ∧
       stopped placed (setPos p l) ∧
       (p = pos l ∨
        (0 ≤ p < pos l ∧ ∀ q, q ∈ placed → collides (setPos p l) q = false)).
Proof.
  unfold Compactor.compactItem.
  pose proof (slide_stopped (Z.to_nat (pos l)) placed l (le_n _)) as Hst.
  destruct (slide_inv (Z.to_nat (pos l)) placed l) as (p & Hp & Hcase).
  rewrite Hp in *. by exists p.
Qed.


Lemma place_fst placed sorted : (place placed sorted).*1 = sorted.*1.
Proof.
  revert placed. induction sorted as [|e rest IH]; intros placed; simpl;
    [done | by rewrite IH].
Qed.

Lemma place_length placed sorted :
  length (place placed sorted) = length sorted.
Proof.
  pose proof (f_equal length (place_fst placed sorted)) as Hlen.
  by rewrite !length_fmap in Hlen.
Qed.

Lemma place_lookup sorted placed n e :
  sorted !! n = Some e →
  place placed sorted !! n =
    Some (e.1, compactItem (placed ++ (take n (place placed sorted)).*2) e.2).
Proof.
  revert placed n. induction sorted as [|e0 rest IH]; intros placed n Hn;
    [done|].
  destruct n as [|n]; simpl in *.
  - injection Hn as ->. by rewrite app_nil_r.
  - rewrite (IH _ _ Hn). by rewrite <- app_assoc.
Qed.

(** ** The first pass: what stops every item *)

Lemma entryLe_total_inst : Total entryLe.
Proof. intros a b. apply keyLe_total. Qed.

Lemma entryLe_trans_inst : Transitive entryLe.
Proof. intros a b c. apply keyLe_trans. Qed.


Lemma place_blocked placed sorted n e :
  StronglySorted entryLe sorted → NoDup sorted.*1 →
  place placed sorted !! n = Some e →
  (∃ e0 p, sorted !! n = Some e0 ∧ e.1 = e0.1 ∧ e.2 = setPos p e0.2 ∧
           (p = pos e0.2 ∨ 0 ≤ p < pos e0.2)) ∧
  stopped (placed ++ (filter (λ e', entryLt e' e) (place placed sorted)).*2) e.2.
Proof.
  intros Hs Hnd Hn. set (done := place placed sorted) in *.
  assert (is_Some (sorted !! n)) as [e0 He0].
  { apply lookup_lt_is_Some. rewrite <- (place_length placed).
    by eapply lookup_lt_Some. }
  pose proof (place_lookup _ placed _ _ He0) as Hn'. fold done in Hn'.
  rewrite Hn in Hn'. injection Hn' as ->.
  destruct (compactItem_inv (placed ++ (take n done).*2) e0.2)
    as (p & Hp & Hst & Hcase).
  simpl. rewrite Hp. split.
  { exists e0, p. repeat split; try done. destruct Hcase as [-> | [? _]]; auto. }
  destruct Hst as [H0 | (q & Hq & Hc)]; [by left | right].
  exists q. split; [|done].
  apply elem_of_app in Hq as [Hq | Hq]; apply elem_of_app; [by left | right].
  apply list_elem_of_fmap in Hq as (ej & -> & Hej).
  apply list_elem_of_fmap_2, list_elem_of_filter.
  apply list_elem_of_lookup in Hej as [j Hj].
  apply lookup_take_Some in Hj as [Hj Hjn].
  split; [|by eapply list_elem_of_lookup_2].
  assert (is_Some (sorted !! j)) as [e0j He0j].
  { apply lookup_lt_is_Some. rewrite <- (place_length placed).
    by eapply lookup_lt_Some. }
  pose proof (place_lookup _ placed _ _ He0j) as Hj'. fold done in Hj'.
  rewrite Hj in Hj'. injection Hj' as ->.
  destruct (compactItem_inv (placed ++ (take j done).*2) e0j.2)
    as (pj & Hpj & _ & Hcasej).
  rewrite Hpj in *. simpl in *.
  rewrite pos_set in Hc. rewrite set_set in Hc.
  unfold Compactor.entryLt, key; simpl. rewrite !pos_set, !sec_set.
  destruct Hcase as [-> | [Hlt Hfree]].
  - (* the item did not move: the order of the first pass carries over *)
    assert (entryLe e0j e0) as Hle
      by (apply (sorted_lookup_le _ _ j n _ _ Hs He0j He0 Hjn)).
    assert (e0j.1 ≠ e0.1) as Hne.
    { intros Heq. assert (j = n); [|lia].
      apply (NoDup_lookup _ _ _ e0j.1 Hnd);
        rewrite list_lookup_fmap; [by rewrite He0j | by rewrite He0, Heq]. }
    assert (pj ≤ pos e0j.2) as Hpjle by lia.
    revert Hle Hne Hpjle. unfold Compactor.entryLe, key, keyLe, keyLt; simpl.
    lia.
  - (* the item moved: it is free where it stands, taken one cell before *)
    assert (collides (setPos p e0.2) (setPos pj e0j.2) = false) as Hfree'.
    { apply Hfree, elem_of_app. right.
      apply (list_elem_of_fmap_2' snd _ (e0j.1, setPos pj e0j.2));
        [|done].
      apply list_elem_of_lookup. exists j. by apply lookup_take_Some. }
    pose proof (edge _ _ _ Hc Hfree') as Hedge. rewrite pos_set in Hedge.
    unfold keyLt; simpl. lia.
Qed.

(** ** The second pass moves nothing *)


(** What the first pass leaves: the items it has placed, each at the
    position it had in the layout, moved toward the origin or not at all,
    and stopped by a static item or an item that comes before it in the
    order of the result. *)
Lemma compactAxis_placed layout :
  let statics := filter (λ l, Item.static l = true) layout in
  let done := place statics (merge_sort entryLe (movable layout)) in
  NoDup done.*1 ∧
  (∀ k, k ∈ done.*1 ↔ ∃ l, layout !! k = Some l ∧ Item.static l = false) ∧
  (∀ e, e ∈ done →
     (∃ l p, layout !! e.1 = Some l ∧ Item.static l = false ∧ e.2 = setPos p l ∧
             (p = pos l ∨ 0 ≤ p < pos l)) ∧
     stopped (statics ++ (filter (λ e', entryLt e' e) done).*2) e.2).
Proof.
  intros statics done.
  pose proof entryLe_total_inst as Htot. pose proof entryLe_trans_inst as Htr.
  set (sorted := merge_sort entryLe (movable layout)) in *.
  assert (StronglySorted entryLe sorted) as Hs
    by (apply StronglySorted_merge_sort; apply _).
  assert (sorted ≡ₚ movable layout) as Hperm by apply merge_sort_Permutation.
  assert (NoDup sorted.*1) as Hnd.
  { rewrite Hperm. apply movable_NoDup. }
  split; [unfold done; by rewrite place_fst|]. split.
  - intros k. unfold done. rewrite place_fst, Hperm, list_elem_of_fmap. split.
    + intros (e & -> & He). apply movable_elem_of in He. eauto.
    + intros (l & Hl & Hns). exists (k, l). split; [done|].
      by apply movable_elem_of.
  - intros e He. apply list_elem_of_lookup in He as [n Hn].
    destruct (place_blocked statics sorted n e Hs Hnd Hn)
      as ((e0 & p & He0 & Hfst & Hsnd & Hp) & Hst).
    split; [|done].
    assert (e0 ∈ movable layout) as Hmov.
    { rewrite <- Hperm. by eapply list_elem_of_lookup_2. }
    apply movable_elem_of in Hmov as [Hl Hns].
    exists e0.2, p. by rewrite Hfst.
Qed.

(** Every item of the result is the item of the layout at the same
    position, moved toward the origin when it is not static, or not at
    all. *)
Lemma compactAxis_lookup layout k l :
  layout !! k = Some l →
  ∃ p, compactAxis layout !! k = Some (setPos p l) ∧
       (p = pos l ∨ (Item.static l = false ∧ 0 ≤ p < pos l)).
Proof.
  intros Hl. unfold Compactor.compactAxis.
  destruct (compactAxis_placed layout) as (Hnd & Hdom & Hdone).
  set (done := place _ _) in *.
  destruct (decide (k ∈ done.*1)) as [Hin | Hnotin].
  - apply list_elem_of_fmap in Hin as ([k' v] & -> & Hin). simpl in *.
    destruct (Hdone _ Hin) as ((l' & p & Hl' & Hns & Hv & Hp) & _). simpl in *.
    assert (l' = l) as -> by congruence.
    exists p. split.
    + rewrite <- Hv. apply writeBack_lookup_in; [done | done|].
      by eapply lookup_lt_Some.
    + destruct Hp; auto.
  - exists (pos l). rewrite set_pos. split; [|by left].
    by rewrite writeBack_lookup_notin.
Qed.

Lemma compactAxis_length layout : length (compactAxis layout) = length layout.
Proof. unfold Compactor.compactAxis. apply writeBack_length. Qed.


(** Compaction keeps the identifiers, in order. *)
Lemma compactAxis_ids layout :
  Item.i <$> compactAxis layout = Item.i <$> layout.
Proof.
  apply list_eq. intros k. rewrite !list_lookup_fmap.
  destruct (layout !! k) as [l|] eqn:Hl.
  - destruct (compactAxis_lookup layout k l Hl) as (p & -> & _). simpl.
    by rewrite id_set.
  - rewrite (lookup_ge_None_2 (compactAxis layout)); [done|].
    rewrite compactAxis_length. by apply lookup_ge_None.
Qed.

End AxisFacts.
(** ** The two axes *)

Lemma collides_edge_y l q p :
  collides (Item.set_y (p - 1) l) q = true →
  collides (Item.set_y p l) q = false → Item.y q < p.
Proof.
  unfold collides; simpl. intros Hc Hf.
  apply andb_true_iff in Hc as [Hc Hy]. rewrite Hc in Hf. simpl in Hf.
  by apply (intersects_edge p (Item.h l) (Item.y q) (Item.y q + Item.h q)).
Qed.

Lemma collides_edge_x l q p :
  collides (Item.set_x (p - 1) l) q = true →
  collides (Item.set_x p l) q = false → Item.x q < p.
Proof.
  unfold collides; simpl. intros Hc Hf.
  apply andb_true_iff in Hc as [Hc Hy]. rewrite Hy, andb_true_r in Hf.
  apply andb_true_iff in Hc as [Hc Hx]. rewrite Hc in Hf. simpl in Hf.
  by apply (intersects_edge p (Item.w l) (Item.x q) (Item.x q + Item.w q)).
Qed.

Lemma set_y_same l : Item.set_y (Item.y l) l = l.
Proof. by destruct l. Qed.

Lemma set_x_same l : Item.set_x (Item.x l) l = l.
Proof. by destruct l. Qed.





(** Compaction keeps the identifiers, in order. *)
Lemma compact_ids layout compactType cols :
  Item.i <$> compact layout compactType cols = Item.i <$> layout.
Proof.
  destruct compactType; simpl; [| |done].
  - apply (compactAxis_ids Item.y Item.x Item.set_y); try done.
    + apply set_y_same.
    + apply collides_edge_y.
  - rewrite (compactAxis_ids Item.x Item.y Item.set_x); try done.
    + rewrite <- list_fmap_compose. apply list_fmap_ext.
      intros _ l _. unfold clampMovable. simpl. by destruct (Item.static l).
    + apply set_x_same.
    + apply collides_edge_x.
Qed.

End CompactorFacts.

(** * Facts about the component *)

Section Respects.
Context {R : relation World} `{!PreOrder R}.

Lemma respects_ret {A} (a : A) : respects R (mret a).
Proof. intros w a' w' [= _ <-]. reflexivity. Qed.

Lemma respects_throw {A} e : respects R (throw e : M A).
Proof. intros w a w' [=]. Qed.

Lemma respects_get : respects R get.
Proof. intros w a w' [= _ <-]. reflexivity. Qed.

Lemma respects_getInstance r : respects R (getInstance r).
Proof.
  intros w a w'. unfold getInstance.
  destruct (World.instances w !! r); intros [= _ <-]. reflexivity.
Qed.

Lemma respects_bind {A B} (m : M A) (k : A → M B) :
  respects R m → (∀ a, respects R (k a)) → respects R (m ≫= k).
Proof.
  intros Hm Hk w b w'. unfold mbind, M_bind.
  destruct (m w) as [a w1|] eqn:Hmw; [|done].
  intros Hkw. transitivity w1; [by eapply Hm | by eapply Hk].
Qed.

Lemma respects_modify f : (∀ w, R w (f w)) → respects R (modify f).
Proof. intros Hf w a w' Heq. inversion Heq; subst. apply Hf. Qed.

Lemma respects_forEach {A} (l : list A) (f : A → M unit) :
  (∀ a, respects R (f a)) → respects R (forEach l f).
Proof.
  intros Hf. induction l as [|a l IH]; simpl.
  - apply respects_ret.
  - apply respects_bind; [apply Hf | intros _; apply IH].
Qed.

End Respects.

(** One step of the evaluation of a method, case by case on what it reads. *)
Ltac respects_step :=
  first
    [ apply respects_ret
    | apply respects_throw
    | apply respects_get
    | apply respects_getInstance
    | apply respects_bind; [|intros ?]
    | apply respects_forEach; intros ?
    | match goal with
      | |- respects _ (match ?x with _ => _ end) => destruct x
      end ].

(** Unfold the monad and the primitives. *)
Ltac mrun :=
  unfold mbind, M_bind, mret, M_ret, setState, inPlace, modify, get, call, throw;
  simpl.

(** ** What every method leaves as it is

    A relation between states that holds across the writes the methods are
    made of holds across every method, and across every run. *)

Section Invariance.
Context `{!utils.Imports, !constants.Constants}.
Context {R : relation World} `{!PreOrder R}.

Hypothesis R_withState : ∀ r f w, R w (withState r f w).
Hypothesis R_calls : ∀ v w, R w (World.set_calls v w).
Hypothesis R_hovered_none : ∀ w, R w (World.set_hoveredGroups [] w).
Hypothesis R_hovered_one : ∀ g w, R w (World.set_hoveredGroups [g] w).
Hypothesis R_unregister :
  ∀ g w, R w (World.set_groupLayouts (delete g (World.groupLayouts w)) w).
Hypothesis R_constructor :
  ∀ props w this w', constructor props w = Return this w' → R w w'.

Lemma invariant_setState r f : respects R (setState r f).
Proof. by apply respects_modify. Qed.

Lemma invariant_inPlace r f : respects R (inPlace r f).
Proof. apply invariant_setState. Qed.

Lemma invariant_call c : respects R (call c).
Proof. by apply respects_modify. Qed.

Ltac invariant_step :=
  first
    [ apply invariant_setState
    | apply invariant_inPlace
    | apply invariant_call
    | apply respects_modify; solve [auto]
    | respects_step ].

Lemma invariant_onLayoutMaybeChanged this newLayouts oldLayouts :
  respects R (onLayoutMaybeChanged this newLayouts oldLayouts).
Proof. unfold onLayoutMaybeChanged. repeat invariant_step. Qed.

Lemma invariant_removeOtherGroupItem layoutItem group :
  respects R (removeOtherGroupItem layoutItem group).
Proof. unfold removeOtherGroupItem. repeat invariant_step. Qed.

Lemma invariant_removeHoverdGroupItem this layoutItem :
  respects R (removeHoverdGroupItem this layoutItem).
Proof.
  unfold removeHoverdGroupItem.
  repeat first [apply invariant_removeOtherGroupItem | invariant_step].
Qed.

Lemma invariant_calcXY this item offset : respects R (calcXY this item offset).
Proof. unfold calcXY. repeat invariant_step. Qed.

Lemma invariant_moveItem this k offset : respects R (moveItem this k offset).
Proof.
  unfold moveItem. repeat first [apply invariant_calcXY | invariant_step].
Qed.

Lemma invariant_resetDraggingState this id :
  respects R (resetDraggingState this id).
Proof. unfold resetDraggingState. repeat invariant_step. Qed.

Lemma invariant_onDrop this dragItem itemType :
  respects R (onDrop this dragItem itemType).
Proof.
  unfold onDrop.
  repeat first [apply invariant_onLayoutMaybeChanged
               | apply invariant_resetDraggingState | invariant_step].
Qed.

Lemma invariant_fire e : respects R (fire e).
Proof.
  destruct e; simpl.
  - intros w a w'. unfold mbind, M_bind.
    destruct (constructor props w) as [r w1|] eqn:Hc; [|done].
    intros [= _ <-]. by eapply R_constructor.
  - unfold componentWillUnmount. repeat invariant_step.
  - apply invariant_removeHoverdGroupItem.
  - apply invariant_moveItem.
  - apply invariant_onDrop.
  - unfold onDragStart. repeat invariant_step.
  - unfold onDragEnd, isGroupItem.
    repeat first [apply invariant_resetDraggingState | invariant_step].
  - unfold onCardItemDragEnd.
    repeat first [apply invariant_onDrop | invariant_step].
  - unfold onResize. repeat invariant_step.
  - unfold onResizeStop.
    repeat first [apply invariant_onLayoutMaybeChanged | invariant_step].
Qed.

Lemma invariant_run events : respects R (run events).
Proof. apply respects_forEach, invariant_fire. Qed.

End Invariance.

Section ComponentFacts.
Context `{!utils.Imports, !constants.Constants}.

(** ** The counter of the default group names *)

#[local] Instance counterGrows_preorder : PreOrder counterGrows.
Proof. split; unfold counterGrows; [intros w | intros w1 w2 w3]; lia. Qed.

Lemma counterGrows_constructor props w this w' :
  constructor props w = Return this w' →
  World.groupIndex w' = S (World.groupIndex w).
Proof. by intros [= _ <-]. Qed.

Lemma counterGrows_run events : respects counterGrows (run events).
Proof.
  apply invariant_run; unfold counterGrows; simpl; try (intros; lia).
  intros props w this w' Hc%counterGrows_constructor. lia.
Qed.

(** ** The constructor *)

Lemma set_mountedListeners_same inst :
  Layout.set_mountedListeners (Layout.mountedListeners inst) inst = inst.
Proof. by destruct inst. Qed.

(** Registering listeners touches nothing else of an instance. *)
Lemma listenMounted_lookup groupLayouts keys instances r inst :
  instances !! r = Some inst →
  ∃ n, foldl (λ acc key, listenMounted groupLayouts key acc) instances keys !! r
       = Some (Layout.set_mountedListeners n inst).
Proof.
  revert instances inst. induction keys as [|key keys IH]; intros instances inst Hr.
  { exists (Layout.mountedListeners inst). simpl.
    by rewrite set_mountedListeners_same. }
  simpl.
  assert (∃ n, listenMounted groupLayouts key instances !! r
               = Some (Layout.set_mountedListeners n inst)) as [n Hn].
  { unfold listenMounted. destruct (groupLayouts !! key) as [r'|].
    - rewrite lookup_alter. case_decide; subst; rewrite Hr; simpl.
      + destruct (usesDefaultGroup inst); eauto.
        exists (Layout.mountedListeners inst).
        by rewrite set_mountedListeners_same.
      + exists (Layout.mountedListeners inst).
        by rewrite set_mountedListeners_same.
    - exists (Layout.mountedListeners inst).
      by rewrite Hr, set_mountedListeners_same. }
  destruct (IH _ _ Hn) as [n' Hn']. exists n'. by rewrite Hn'.
Qed.

Lemma constructor_instance props w this w' :
  constructor props w = Return this w' →
  ∃ inst,
    World.instances w' !! this = Some inst ∧
    Layout.props inst = props ∧
    Layout.group inst =
      (if decide (Props.group props = "")
       then defaultGroupName (World.groupIndex w) else Props.group props) ∧
    State.layouts (Layout.state inst) =
      utils.reLayout (Props.layouts props) (Props.compactType props) (Props.cols props) ∧
    State.oldLayouts (Layout.state inst) = None ∧
    World.groupLayouts w' !! Layout.group inst = Some this ∧
    World.groupIndex w' = S (World.groupIndex w).
Proof.
  unfold constructor. intros [= <- <-]. simpl.
  set (this := fresh (dom (World.instances w))).
  set (name := if decide (Props.group props = "")
              then defaultGroupName (World.groupIndex w) else Props.group props).
  set (inst0 := Layout.mk name props _ None 0%nat).
  assert (<[this := inst0]> (World.instances w) !! this = Some inst0) as Hthis
    by apply lookup_insert_eq.
  destruct (decide (Props.group props = "")) as [Hg | Hg].
  - destruct (listenMounted_lookup (<[name := this]> (World.groupLayouts w))
                ((map_to_list (<[name := this]> (World.groupLayouts w))).*1
                 ++ [constants.DEFAULT_ITEMTYPE]) _ _ _ Hthis) as [n Hn].
    eexists. split; [exact Hn|]. simpl.
    repeat split; try done. apply lookup_insert_eq.
  - exists inst0. repeat split; try done. simpl. apply lookup_insert_eq.
Qed.

Lemma defaultGroupName_inj n1 n2 :
  defaultGroupName n1 = defaultGroupName n2 → n1 = n2.
Proof.
  unfold defaultGroupName. intros Heq.
  apply (inj _) in Heq. apply (inj _) in Heq. by apply (inj pretty).
Qed.


(** ** The registry stays consistent *)

#[local] Instance staysRegistered_preorder : PreOrder staysRegistered.
Proof. split; unfold staysRegistered; [intros w | intros w1 w2 w3]; auto. Qed.

Lemma registered_withState r f w : registered w → registered (withState r f w).
Proof.
  intros Hreg g r' Hg. specialize (Hreg g r' Hg). simpl in *.
  rewrite lookup_alter. case_decide; [subst|done].
  by destruct (World.instances w !! r').
Qed.

Lemma registered_constructor props w this w' :
  constructor props w = Return this w' → registered w → registered w'.
Proof.
  unfold constructor. intros [= <- <-] Hreg.
  set (this := fresh (dom (World.instances w))).
  set (name := if decide (Props.group props = "")
               then defaultGroupName (World.groupIndex w) else Props.group props).
  set (inst0 := Layout.mk name props _ None 0%nat).
  set (groupLayouts := <[name := this]> (World.groupLayouts w)).
  set (instances := if decide (Props.group props = "") then _ else _).
  assert (∀ r l, <[this := inst0]> (World.instances w) !! r = Some l →
                 Layout.group <$> instances !! r = Some (Layout.group l)) as Hkeep.
  { intros r l Hr. unfold instances. case_decide.
    - destruct (listenMounted_lookup groupLayouts
                  ((map_to_list groupLayouts).*1 ++ [constants.DEFAULT_ITEMTYPE])
                  _ _ _ Hr) as [n ->].
      done.
    - by rewrite Hr. }
  intros g r Hg. simpl in *.
  destruct (decide (name = g)) as [<- | Hne].
  - unfold groupLayouts in Hg. rewrite lookup_insert_eq in Hg. injection Hg as <-.
    apply (Hkeep this inst0). apply lookup_insert_eq.
  - unfold groupLayouts in Hg. rewrite lookup_insert_ne in Hg by done.
    specialize (Hreg g r Hg). simpl in Hreg.
    destruct (World.instances w !! r) as [l|] eqn:Hr; [|done].
    injection Hreg as <-. apply Hkeep.
    rewrite lookup_insert_ne; [done|].
    intros <-. pose proof (is_fresh (dom (World.instances w))) as Hfresh.
    apply Hfresh. by apply elem_of_dom.
Qed.

Lemma registered_run events w w' :
  registered w → run events w = Return () w' → registered w'.
Proof.
  intros Hreg Hrun. revert Hreg.
  apply (invariant_run (R := staysRegistered)) in Hrun; [done|..];
    unfold staysRegistered.
  - intros r f w0. apply registered_withState.
  - done.
  - done.
  - done.
  - intros g w0 Hreg0 g' r Hg. simpl in *.
    apply lookup_delete_Some in Hg as [_ Hg]. by apply Hreg0.
  - intros props w0 this w1. apply registered_constructor.
Qed.

(** Every state the component reaches from the initial one has a consistent
    registry. *)
Lemma registered_reachable events w :
  run events World.initial = Return () w → registered w.
Proof.
  apply registered_run. intros g r Hg. simpl in Hg.
  by rewrite lookup_empty in Hg.
Qed.

(** ** The derived state *)

Lemma deriveState_idle w props prevState :
  World.hoveredGroups w = [] → State.placeholder prevState = None →
  deriveState w props prevState =
    if utils.isEqual (Props.layouts props) (State.layouts prevState)
    then prevState
    else State.set_layouts
           (utils.reLayout (Props.layouts props) (Props.compactType props)
              (Props.cols props)) prevState.
Proof.
  intros Hh Hp. unfold deriveState, getDerivedStateFromProps.
  rewrite Hh, Hp. simpl.
  by destruct (utils.isEqual _ _).
Qed.

Lemma deriveState_busy w props prevState :
  World.hoveredGroups w ≠ [] ∨ is_Some (State.placeholder prevState) →
  getDerivedStateFromProps w props prevState = None ∧
  deriveState w props prevState = prevState.
Proof.
  intros Hbusy. unfold deriveState, getDerivedStateFromProps.
  assert (bool_decide (World.hoveredGroups w ≠ [])
          || bool_decide (is_Some (State.placeholder prevState)) = true) as ->; [|done].
  apply orb_true_iff.
  destruct Hbusy; [left | right]; by apply bool_decide_eq_true.
Qed.

(** ** Running the methods *)

Lemma withState_lookup_eq r f w inst :
  World.instances w !! r = Some inst →
  World.instances (withState r f w) !! r
  = Some (Layout.set_state (f (Layout.state inst)) inst).
Proof. intros Hr. unfold withState; simpl. by rewrite lookup_alter_eq, Hr. Qed.

Lemma withState_lookup_ne r r' f w :
  r ≠ r' → World.instances (withState r f w) !! r' = World.instances w !! r'.
Proof. intros Hne. unfold withState; simpl. by rewrite lookup_alter_ne. Qed.

Lemma getInstance_run r w inst :
  World.instances w !! r = Some inst → getInstance r w = Return inst w.
Proof. intros Hr. unfold getInstance. by rewrite Hr. Qed.

Lemma calcXY_run this item offset w inst dom parentOffset :
  World.instances w !! this = Some inst →
  Layout.containerRef inst = Some dom →
  State.offset (Layout.state inst) = Some parentOffset →
  calcXY this item offset w =
    Return (utils.calcXY (getPositionParams inst)
              (Coord.y offset - Coord.y parentOffset + Dom.parentScrollTop dom)
              (Coord.x offset - Coord.x parentOffset + Dom.parentScrollLeft dom)
              (Item.w item) (Item.h item)) w.
Proof.
  intros Hinst Hdom Hoff. unfold calcXY. mrun.
  by rewrite (getInstance_run _ _ _ Hinst), Hdom, Hoff.
Qed.

Lemma moveItem_same_cell_run this k offset w inst dom parentOffset l :
  World.instances w !! this = Some inst →
  Layout.containerRef inst = Some dom →
  State.offset (Layout.state inst) = Some parentOffset →
  State.layouts (Layout.state inst) !! k = Some l →
  State.prevPosition (Layout.state inst) =
    Some (utils.calcXY (getPositionParams inst)
            (Coord.y offset - Coord.y parentOffset + Dom.parentScrollTop dom)
            (Coord.x offset - Coord.x parentOffset + Dom.parentScrollLeft dom)
            (Item.w l) (Item.h l)) →
  moveItem this k offset w =
    Return ()
      (withState this
         (λ st, State.set_layouts
                  (<[k := Item.set_placeholder (Some true) l]>
                     (State.layouts (Layout.state inst))) st) w).
Proof.
  intros Hinst Hdom Hoff Hk Hprev. unfold moveItem. mrun.
  rewrite (getInstance_run _ _ _ Hinst), Hdom, Hk.
  rewrite (calcXY_run _ _ _ _ _ _ _ Hinst Hdom Hoff).
  by rewrite Hprev, bool_decide_eq_true_2.
Qed.

Lemma resetDraggingState_run this id w inst :
  World.instances w !! this = Some inst →
  resetDraggingState this id w =
    Return ()
      (withState this
         (λ st, State.set_draggingItem None
                  (State.set_prevPosition None (State.set_oldLayouts None st)))
         (World.set_hoveredGroups []
            (match findIndex (State.layouts (Layout.state inst)) id with
             | Some k =>
                 withState this
                   (λ st, State.set_layouts
                            (alter (Item.set_placeholder None) k (State.layouts st)) st) w
             | None => w
             end))).
Proof.
  intros Hinst. unfold resetDraggingState. mrun.
  rewrite (getInstance_run _ _ _ Hinst).
  by destruct (findIndex _ id).
Qed.

Lemma cloneLayouts_same layouts : cloneLayouts layouts = layouts.
Proof.
  unfold cloneLayouts. rewrite <- (list_fmap_id layouts) at 2.
  apply list_fmap_ext. intros _ l _. by destruct l.
Qed.

Lemma fmap_alter_absorb {A B} (f : A → B) (g : A → A) k (l : list A) :
  (∀ a, f (g a) = f a) → f <$> alter g k l = f <$> l.
Proof.
  intros Hfg. apply list_eq. intros j. rewrite !list_lookup_fmap.
  destruct (decide (k = j)) as [-> | Hne].
  - rewrite list_lookup_alter_eq. destruct (l !! j); simpl; [|done].
    by rewrite Hfg.
  - by rewrite list_lookup_alter_ne.
Qed.

Lemma alter_id_on {A} (g : A → A) k (l : list A) :
  (∀ a, l !! k = Some a → g a = a) → alter g k l = l.
Proof.
  intros Hg. apply list_eq. intros j.
  destruct (decide (k = j)) as [-> | Hne].
  - rewrite list_lookup_alter_eq. destruct (l !! j) eqn:Hj; simpl; [|done].
    by rewrite Hg.
  - by rewrite list_lookup_alter_ne.
Qed.

Lemma findIndex_Some layouts id k :
  findIndex layouts id = Some k →
  ∃ l, layouts !! k = Some l ∧ Item.i l = id ∧ getLayoutItem layouts id = Some l.
Proof.
  unfold findIndex, getLayoutItem.
  destruct (list_find _ layouts) as [[k' l]|] eqn:Hfind; [|done].
  intros [= <-]. apply list_find_Some in Hfind as (Hl & Hid & _). eauto.
Qed.

Lemma findIndex_None layouts id :
  findIndex layouts id = None ↔ id ∉ Item.i <$> layouts.
Proof.
  unfold findIndex. rewrite fmap_None, list_find_None, Forall_forall.
  rewrite list_elem_of_fmap. split.
  - intros Hall (l & -> & Hl). by apply (Hall l).
  - intros Hnot l Hl Hid. apply Hnot. eauto.
Qed.

Lemma isGroupItem_run this itemType w inst :
  World.instances w !! this = Some inst →
  isGroupItem this itemType w =
    Return (bool_decide (itemType = Layout.group inst)
            || bool_decide (is_Some (World.groupLayouts w !! itemType))) w.
Proof.
  intros Hinst. unfold isGroupItem. mrun.
  by rewrite (getInstance_run _ _ _ Hinst).
Qed.

(** The state an instance is left in when a drag of one of the group's items
    ends without a drop. *)
Lemma onDragEnd_cancel_run this item itemType w inst snap :
  World.instances w !! this = Some inst →
  State.oldLayouts (Layout.state inst) = Some snap →
  itemType = Layout.group inst ∨ is_Some (World.groupLayouts w !! itemType) →
  ∃ w' inst',
    onDragEnd this item false itemType w = Return () w' ∧
    World.instances w' !! this = Some inst' ∧
    State.layouts (Layout.state inst') =
      match findIndex snap (Item.i item) with
      | Some k => alter (Item.set_placeholder None) k snap
      | None => snap
      end ∧
    State.draggingItem (Layout.state inst') = None ∧
    State.prevPosition (Layout.state inst') = None ∧
    State.oldLayouts (Layout.state inst') = None ∧
    World.hoveredGroups w' = [].
Proof.
  intros Hinst Hsnap Hgroup. unfold onDragEnd.
  unfold mbind, M_bind at 1. rewrite (isGroupItem_run _ _ _ _ Hinst).
  assert (bool_decide (itemType = Layout.group inst)
          || bool_decide (is_Some (World.groupLayouts w !! itemType)) = true) as ->.
  { apply orb_true_iff.
    destruct Hgroup; [left | right]; by apply bool_decide_eq_true. }
  mrun. rewrite (getInstance_run _ _ _ Hinst), Hsnap.
  pose proof (withState_lookup_eq this (State.set_layouts snap) w inst Hinst) as H1.
  rewrite (resetDraggingState_run _ _ _ _ H1). simpl.
  destruct (findIndex snap (Item.i item)) as [k|]; simpl;
    (eexists _, _; split; [reflexivity|]); simpl;
    rewrite !lookup_alter_eq, Hinst; simpl; (split; [reflexivity | done]).
Qed.

(** The state an instance is left in when the drag of a card that has a copy
    in the layout ends without a drop. *)
Lemma onCardItemDragEnd_cancel_run this item itemType w inst snap draggingItem index :
  World.instances w !! this = Some inst →
  State.oldLayouts (Layout.state inst) = Some snap →
  State.draggingItem (Layout.state inst) = Some draggingItem →
  findIndex (State.layouts (Layout.state inst)) (Item.i draggingItem) = Some index →
  ∃ w' inst',
    onCardItemDragEnd this item false itemType w = Return () w' ∧
    World.instances w' !! this = Some inst' ∧
    State.layouts (Layout.state inst') = snap ∧
    State.draggingItem (Layout.state inst') = None ∧
    State.prevPosition (Layout.state inst') = None ∧
    State.oldLayouts (Layout.state inst') = Some snap ∧
    World.hoveredGroups w' = World.hoveredGroups w.
Proof.
  intros Hinst Hsnap Hdrag Hidx. unfold onCardItemDragEnd. mrun.
  rewrite (getInstance_run _ _ _ Hinst), Hdrag, Hidx, Hsnap. simpl.
  eexists _, _. split; [reflexivity|].
  unfold withState; simpl.
  rewrite !lookup_alter_eq, Hinst; simpl. split; [reflexivity|].
  rewrite cloneLayouts_same. by destruct inst as [? ? [] ? ?]; simpl in *.
Qed.

Lemma onLayoutMaybeChanged_run this newLayouts oldLayouts w inst :
  World.instances w !! this = Some inst →
  onLayoutMaybeChanged this newLayouts oldLayouts w =
    let equal :=
      utils.isEqual (default (State.layouts (Layout.state inst)) oldLayouts) newLayouts in
    Return equal
      (World.set_calls
         (World.calls w
          ++ layoutChangeCalls equal (Props.onLayoutChange (Layout.props inst)) this
               newLayouts) w).
Proof.
  intros Hinst. unfold onLayoutMaybeChanged, layoutChangeCalls. mrun.
  rewrite (getInstance_run _ _ _ Hinst), cloneLayouts_same.
  destruct (negb _ && _); simpl; [done|].
  rewrite app_nil_r. by destruct w.
Qed.

Lemma findIndex_same_ids layouts1 layouts2 id :
  Item.i <$> layouts1 = Item.i <$> layouts2 →
  findIndex layouts1 id = findIndex layouts2 id.
Proof.
  unfold findIndex. revert layouts2.
  induction layouts1 as [|l1 layouts1 IH]; intros [|l2 layouts2] Hids; try done.
  injection Hids as Hid Hrest. simpl. rewrite Hid.
  case_decide; [done|].
  specialize (IH _ Hrest).
  destruct (list_find _ layouts1) as [[]|], (list_find _ layouts2) as [[]|];
    simpl in *; congruence.
Qed.

Lemma insert_same_ids (layouts : list LayoutItem) k l l' :
  layouts !! k = Some l → Item.i l' = Item.i l →
  Item.i <$> <[k := l']> layouts = Item.i <$> layouts.
Proof.
  intros Hk Hid. rewrite list_fmap_insert, Hid.
  apply list_insert_id. by rewrite list_lookup_fmap, Hk.
Qed.

(** A drop of one of the group's own items on its layout. *)
Lemma onDrop_own_group_run this dragItem w inst draggingItem index l :
  World.instances w !! this = Some inst →
  State.draggingItem (Layout.state inst) = Some draggingItem →
  findIndex (State.layouts (Layout.state inst)) (Item.i draggingItem) = Some index →
  State.layouts (Layout.state inst) !! index = Some l →
  let committed :=
    <[index := Item.set_placeholder None l]> (State.layouts (Layout.state inst)) in
  let equal :=
    utils.isEqual (default committed (State.oldLayouts (Layout.state inst))) committed in
  ∃ w' inst',
    onDrop this dragItem (Layout.group inst) w = Return () w' ∧
    World.instances w' !! this = Some inst' ∧
    State.layouts (Layout.state inst') = committed ∧
    State.oldLayouts (Layout.state inst') = None ∧
    State.draggingItem (Layout.state inst') = None ∧
    World.hoveredGroups w' = [] ∧
    World.calls w' =
      World.calls w
      ++ layoutChangeCalls equal (Props.onLayoutChange (Layout.props inst)) this committed
      ++ (if Props.onDrop (Layout.props inst)
          then [CallDrop this committed (Item.set_placeholder None l) dragItem
                  (Layout.group inst) (Layout.group inst)]
          else []).
Proof.
  intros Hinst Hdrag Hidx Hl committed equal. unfold onDrop. mrun.
  rewrite (getInstance_run _ _ _ Hinst), Hdrag, Hidx, Hl.
  rewrite bool_decide_eq_true_2 by done.
  fold committed.
  pose proof (withState_lookup_eq this (λ st, State.set_layouts committed st) w inst Hinst)
    as H1.
  unfold mbind, M_bind.
  rewrite (onLayoutMaybeChanged_run _ _ _ _ _ H1). simpl. fold equal.
  match goal with |- context [resetDraggingState this ?id ?w0] =>
    rewrite (resetDraggingState_run this id w0 _ H1) end.
  simpl.
  assert (findIndex committed (Item.i draggingItem) = Some index) as ->.
  { rewrite <- Hidx. apply findIndex_same_ids. by eapply insert_same_ids. }
  assert (alter (Item.set_placeholder None) index committed = committed) as Halter.
  { apply alter_id_on. intros a Ha. unfold committed in Ha.
    rewrite list_lookup_insert_eq in Ha by (by eapply lookup_lt_Some).
    by injection Ha as <-. }
  unfold getInstance, withState; simpl.
  rewrite !lookup_alter_eq, Hinst; simpl.
  destruct (Props.onDrop (Layout.props inst)); simpl;
    (eexists _, _; split; [reflexivity|]); simpl;
    rewrite !lookup_alter_eq, Hinst; simpl; rewrite Halter;
    (split; [reflexivity|]); repeat split; try done.
  - by rewrite <- app_assoc.
  - by rewrite app_nil_r.
Qed.

(** A drop that refers to an item the layout does not hold. *)
Lemma onDrop_absent_run this dragItem itemType w inst draggingItem :
  World.instances w !! this = Some inst →
  State.draggingItem (Layout.state inst) = Some draggingItem →
  findIndex (State.layouts (Layout.state inst)) (Item.i draggingItem) = None →
  onDrop this dragItem itemType w = Throw TypeError.
Proof.
  intros Hinst Hdrag Hidx. unfold onDrop. mrun.
  by rewrite (getInstance_run _ _ _ Hinst), Hdrag, Hidx.
Qed.

Lemma onResizeStop_run this w inst :
  World.instances w !! this = Some inst →
  let props := Layout.props inst in
  let newLayouts :=
    utils.compact (State.layouts (Layout.state inst)) (Props.compactType props)
      (Props.cols props) in
  let equal :=
    utils.isEqual
      (default (State.layouts (Layout.state inst)) (State.oldLayouts (Layout.state inst)))
      newLayouts in
  ∃ w' inst',
    onResizeStop this w = Return () w' ∧
    World.instances w' !! this = Some inst' ∧
    State.placeholder (Layout.state inst') = None ∧
    State.oldLayouts (Layout.state inst') = None ∧
    World.calls w' =
      World.calls w
      ++ layoutChangeCalls equal (Props.onLayoutChange props) this newLayouts
      ++ (if Props.onResizeStop props then [CallResizeStop this newLayouts] else []).
Proof.
  intros Hinst props newLayouts equal. unfold onResizeStop. mrun.
  rewrite (getInstance_run _ _ _ Hinst).
  pose proof (withState_lookup_eq this
    (λ st, State.set_placeholder None (State.set_oldLayouts None st)) w inst Hinst) as H1.
  unfold mbind, M_bind.
  rewrite (onLayoutMaybeChanged_run _ _ _ _ _ H1). simpl.
  fold props newLayouts equal.
  destruct (Props.onResizeStop props); simpl;
    (eexists _, _; split; [reflexivity|]); simpl;
    rewrite !lookup_alter_eq, Hinst; simpl;
    (split; [reflexivity|]); repeat split; try done.
  - by rewrite <- app_assoc.
  - by rewrite app_nil_r.
Qed.

(** ** Releasing an item *)

Lemma alter_as_insert {A} (f : A → A) (m : gmap nat A) r a :
  m !! r = Some a → alter f r m = <[r := f a]> m.
Proof.
  intros Hr. apply map_eq. intros r'.
  destruct (decide (r = r')) as [<- | Hne].
  - by rewrite lookup_alter_eq, lookup_insert_eq, Hr.
  - by rewrite lookup_alter_ne, lookup_insert_ne.
Qed.

Lemma released_group layoutItem layout :
  Layout.group (released layoutItem layout) = Layout.group layout.
Proof. unfold released. by destruct (findIndex _ _). Qed.

Lemma removeOtherGroupItem_unregistered layoutItem group w :
  World.groupLayouts w !! group = None →
  removeOtherGroupItem layoutItem group w = Return () w.
Proof. intros Hg. unfold removeOtherGroupItem. mrun. by rewrite Hg. Qed.

Lemma removeOtherGroupItem_run layoutItem group w r layout :
  World.groupLayouts w !! group = Some r →
  World.instances w !! r = Some layout →
  removeOtherGroupItem layoutItem group w =
    Return () (World.set_instances
                 (<[r := released layoutItem layout]> (World.instances w)) w).
Proof.
  intros Hg Hr. unfold removeOtherGroupItem, released. mrun.
  rewrite Hg, (getInstance_run _ _ _ Hr).
  destruct (findIndex _ _) as [index|]; simpl.
  - unfold withState, World.set_instances; simpl. do 2 f_equal.
    rewrite alter_alter_eq. rewrite (alter_as_insert _ _ _ _ Hr). simpl.
    by destruct layout as [? ? [] ? ?].
  - rewrite insert_id by done. by destruct w.
Qed.


Lemma registered_lookup w g r :
  registered w → World.groupLayouts w !! g = Some r →
  ∃ layout, World.instances w !! r = Some layout ∧ Layout.group layout = g.
Proof.
  intros Hreg Hg. specialize (Hreg g r Hg). simpl in Hreg.
  destruct (World.instances w !! r) as [layout|]; [|done].
  exists layout. split; [done|]. by injection Hreg.
Qed.

Lemma releasing_true w groups current r layout :
  releasing w groups current r layout = true ↔
  Layout.group layout ∈ groups ∧ Layout.group layout ≠ current ∧
  World.groupLayouts w !! Layout.group layout = Some r.
Proof.
  unfold releasing. rewrite !andb_true_iff, !bool_decide_eq_true. tauto.
Qed.

Lemma releasing_false w groups current r layout :
  ¬ (Layout.group layout ∈ groups ∧ Layout.group layout ≠ current ∧
     World.groupLayouts w !! Layout.group layout = Some r) →
  releasing w groups current r layout = false.
Proof.
  intros Hnot. destruct (releasing _ _ _ _ _) eqn:Hrel; [|done].
  by apply releasing_true in Hrel.
Qed.

Lemma fmap_unchanged (m : gmap nat Layout) r (b : Layout → bool) (f : Layout → Layout) :
  (∀ layout, m !! r = Some layout → b layout = false) →
  m !! r = (λ layout, if b layout then f layout else layout) <$> m !! r.
Proof.
  intros Hb. destruct (m !! r) as [layout|]; simpl; [|done].
  by rewrite Hb.
Qed.

(** One step of the loop of [removeHoverdGroupItem]. *)
Lemma release_step layoutItem current g w :
  registered w →
  ∃ w1,
    (if bool_decide (g ≠ current) then removeOtherGroupItem layoutItem g else mret ()) w
      = Return () w1 ∧
    registered w1 ∧
    World.groupLayouts w1 = World.groupLayouts w ∧
    World.hoveredGroups w1 = World.hoveredGroups w ∧
    World.calls w1 = World.calls w ∧
    World.groupIndex w1 = World.groupIndex w ∧
    World.groupKeys w1 = World.groupKeys w ∧
    ∀ r, World.instances w1 !! r =
         (λ layout, if releasing w [g] current r layout
                    then released layoutItem layout else layout)
           <$> World.instances w !! r.
Proof.
  intros Hreg.
  destruct (decide (g ≠ current ∧ is_Some (World.groupLayouts w !! g)))
    as [[Hcur [r0 Hg0]] | Hskip].
  - rewrite bool_decide_eq_true_2 by done.
    destruct (registered_lookup _ _ _ Hreg Hg0) as (layout & Hr0 & Hgroup).
    rewrite (removeOtherGroupItem_run _ _ _ _ _ Hg0 Hr0).
    eexists. split; [reflexivity|]. simpl.
    split; [|repeat split; try done].
    + intros g' r' Hg'. simpl.
      destruct (decide (r0 = r')) as [<- | Hne].
      * rewrite lookup_insert_eq. simpl. rewrite released_group.
        specialize (Hreg g' r0 Hg'). simpl in Hreg. by rewrite Hr0 in Hreg.
      * rewrite lookup_insert_ne by done. by apply Hreg.
    + intros r. destruct (decide (r0 = r)) as [<- | Hne].
      * rewrite lookup_insert_eq, Hr0. simpl.
        rewrite (proj2 (releasing_true w [g] current r0 layout)); [done|].
        rewrite Hgroup. split; [by apply list_elem_of_singleton | done].
      * rewrite lookup_insert_ne by done. apply fmap_unchanged.
        intros layout' Hr. apply releasing_false.
        intros (Hin & _ & Hgl). apply list_elem_of_singleton in Hin.
        rewrite Hin in Hgl. congruence.
  - assert ((if bool_decide (g ≠ current)
             then removeOtherGroupItem layoutItem g else mret ()) w = Return () w)
      as ->.
    { case_bool_decide as Hcur; [|done].
      apply removeOtherGroupItem_unregistered.
      destruct (World.groupLayouts w !! g) eqn:Hg0; [|done].
      exfalso. apply Hskip. eauto. }
    exists w. repeat split; try done.
    intros r. apply fmap_unchanged.
    intros layout' Hr. apply releasing_false.
    intros (Hin & Hcur & Hgl). apply list_elem_of_singleton in Hin.
    rewrite Hin in *. apply Hskip. eauto.
Qed.

Lemma forEach_release layoutItem current groups w :
  registered w → NoDup groups →
  ∃ w',
    forEach groups (λ group,
      if bool_decide (group ≠ current)
      then removeOtherGroupItem layoutItem group
      else mret ()) w = Return () w' ∧
    World.groupLayouts w' = World.groupLayouts w ∧
    World.hoveredGroups w' = World.hoveredGroups w ∧
    World.calls w' = World.calls w ∧
    World.groupIndex w' = World.groupIndex w ∧
    World.groupKeys w' = World.groupKeys w ∧
    ∀ r, World.instances w' !! r =
         (λ layout, if releasing w groups current r layout
                    then released layoutItem layout else layout)
           <$> World.instances w !! r.
Proof.
  intros Hreg Hnd. revert w Hreg.
  induction groups as [|g groups IH]; intros w Hreg.
  { exists w. repeat split; try done. intros r. apply fmap_unchanged.
    intros layout _. apply releasing_false. intros (Hin & _).
    by apply elem_of_nil in Hin. }
  apply NoDup_cons in Hnd as [Hg Hnd]. simpl. unfold mbind, M_bind.
  destruct (release_step layoutItem current g w Hreg)
    as (w1 & Hstep & Hreg1 & Hgl & Hh & Hc & Hi & Hk & Hinst).
  rewrite Hstep.
  destruct (IH Hnd w1 Hreg1) as (w' & Hrun & Hgl' & Hh' & Hc' & Hi' & Hk' & Hinst').
  exists w'. split; [done|].
  repeat split; try congruence.
  intros r. rewrite Hinst', Hinst.
  destruct (World.instances w !! r) as [layout|] eqn:Hr; simpl; [|done].
  f_equal.
  destruct (releasing w [g] current r layout) eqn:Hfirst.
  - apply releasing_true in Hfirst as (Hin & Hcur & Hgl1).
    apply list_elem_of_singleton in Hin.
    rewrite (releasing_false w1 groups).
    + rewrite (proj2 (releasing_true w (g :: groups) current r layout)); [done|].
      split; [rewrite Hin; by left | done].
    + rewrite released_group, Hin. by intros (? & _).
  - destruct (releasing w1 groups current r layout) eqn:Hrest.
    + apply releasing_true in Hrest as (Hin & Hcur & Hgl1). rewrite Hgl in Hgl1.
      rewrite (proj2 (releasing_true w (g :: groups) current r layout)); [done|].
      split; [by right | done].
    + rewrite releasing_false; [done|].
      intros (Hin & Hcur & Hgl1). apply elem_of_cons in Hin as [Hin | Hin].
      * assert (releasing w [g] current r layout = true); [|congruence].
        apply releasing_true. split; [|done]. by apply list_elem_of_singleton.
      * assert (releasing w1 groups current r layout = true); [|congruence].
        apply releasing_true. by rewrite Hgl.
Qed.

(** ** Resizing *)

Lemma least_fold coord from collisions acc :
  match foldl (λ acc layoutItem, if bool_decide (from < coord layoutItem)
                                 then minInf acc (coord layoutItem) else acc)
              acc collisions with
  | None => acc = None ∧ noneBeyond coord from collisions
  | Some m =>
      (acc = Some m ∨ ∃ c, c ∈ collisions ∧ from < coord c ∧ coord c = m) ∧
      (∀ a, acc = Some a → m ≤ a) ∧
      (∀ c, c ∈ collisions → from < coord c → m ≤ coord c)
  end.
Proof.
  revert acc. induction collisions as [|c collisions IH]; intros acc; simpl.
  { destruct acc as [a|].
    - split; [by left|]. split; [intros ? [= <-]; lia|].
      intros c Hc. by apply elem_of_nil in Hc.
    - split; [done|]. intros c Hc. by apply elem_of_nil in Hc. }
  specialize (IH (if bool_decide (from < coord c) then minInf acc (coord c) else acc)).
  destruct (foldl _ _ collisions) as [m|].
  - destruct IH as (Hm & Hacc & Hrest).
    case_bool_decide as Hc.
    + split; [|split].
      * destruct Hm as [Hm | (c' & Hc' & Hlt & Heq)].
        -- destruct acc as [a|]; simpl in Hm; injection Hm as Hm.
           ++ destruct (Z.min_spec a (coord c)) as [[_ Hmin] | [_ Hmin]].
              ** left. congruence.
              ** right. exists c. split; [by left|]. split; [done | congruence].
           ++ right. exists c. split; [by left | done].
        -- right. exists c'. split; [by right | done].
      * intros a ->. specialize (Hacc _ eq_refl). simpl in Hacc. lia.
      * intros c' Hc' Hlt. apply elem_of_cons in Hc' as [-> | Hc'].
        -- destruct acc as [a|]; simpl in Hacc; specialize (Hacc _ eq_refl); lia.
        -- by apply Hrest.
    + split; [|split].
      * destruct Hm as [Hm | (c' & Hc' & Hlt & Heq)]; [by left|].
        right. exists c'. split; [by right | done].
      * done.
      * intros c' Hc' Hlt. apply elem_of_cons in Hc' as [-> | Hc']; [done|].
        by apply Hrest.
  - destruct IH as [Hacc Hrest].
    case_bool_decide as Hc.
    + by destruct acc.
    + split; [done|]. intros c' Hc'.
      apply elem_of_cons in Hc' as [-> | Hc']; [lia | by apply Hrest].
Qed.

Lemma least_Some coord from collisions m :
  least coord from collisions = Some m ↔ isLeast coord from collisions m.
Proof.
  unfold least, isLeast.
  pose proof (least_fold coord from collisions None) as Hfold.
  destruct (foldl _ _ collisions) as [m'|].
  - destruct Hfold as ([? | Hex] & _ & Hmin); [done|]. split.
    + intros [= <-]. done.
    + intros [(c & Hc & Hlt & Heq) Hmin']. f_equal.
      destruct Hex as (c' & Hc' & Hlt' & Heq').
      specialize (Hmin _ Hc Hlt). specialize (Hmin' _ Hc' Hlt'). lia.
  - destruct Hfold as [_ Hnone]. split; [done|].
    intros [(c & Hc & Hlt & _) _]. specialize (Hnone _ Hc). lia.
Qed.


Lemma onResize_run this item w h wd inst newLayouts l :
  World.instances wd !! this = Some inst →
  utils.withLayoutItem (State.layouts (Layout.state inst)) (Item.i item)
    (onResizeItem (State.layouts (Layout.state inst))
       (Props.preventCollision (Layout.props inst)) w h) = (newLayouts, Some l) →
  onResize this item w h wd =
    Return ()
      (withState this (λ st,
         State.set_placeholder
           (Some (Item.fixed (Item.i item) (Item.x l) (Item.y l) (Item.w l) (Item.h l)))
           (State.set_layouts
              (utils.compact newLayouts (Props.compactType (Layout.props inst))
                 (Props.cols (Layout.props inst))) st)) wd).
Proof.
  intros Hinst Hwith. unfold onResize. mrun.
  by rewrite (getInstance_run _ _ _ Hinst), Hwith.
Qed.

Lemma delete_removes_id layouts id index :
  NoDup (Item.i <$> layouts) → findIndex layouts id = Some index →
  id ∉ Item.i <$> delete index layouts.
Proof.
  intros Hnd Hidx. destruct (findIndex_Some _ _ _ Hidx) as (l & Hl & Hid & _).
  rewrite <- (take_drop_middle _ _ _ Hl) in Hnd.
  rewrite delete_take_drop.
  rewrite fmap_app in *. rewrite fmap_cons in Hnd.
  apply NoDup_app in Hnd as (_ & Hdisj & Hnd).
  apply NoDup_cons in Hnd as [Hnotin _].
  rewrite not_elem_of_app. split; [|by rewrite <- Hid].
  intros Hin. apply (Hdisj _ Hin). rewrite Hid. by left.
Qed.

(** ** The hover marks at the end of a drag *)

Lemma getInstance_inv r w inst w' :
  getInstance r w = Return inst w' → w' = w ∧ World.instances w !! r = Some inst.
Proof.
  unfold getInstance. destruct (World.instances w !! r); [|done].
  by intros [= <- <-].
Qed.

Lemma resetDraggingState_hoveredGroups this id w a w' :
  resetDraggingState this id w = Return a w' → World.hoveredGroups w' = [].
Proof.
  unfold resetDraggingState. mrun. unfold getInstance.
  destruct (World.instances w !! this); [|done].
  destruct (findIndex _ id); by intros [= _ <-].
Qed.

(** A drop, whatever is dropped, leaves no group hovered. *)
Lemma onDrop_hoveredGroups this dragItem itemType w a w' :
  onDrop this dragItem itemType w = Return a w' → World.hoveredGroups w' = [].
Proof.
  unfold onDrop. unfold mbind, M_bind. intros Hrun.
  repeat match type of Hrun with
         | context [match ?x with _ => _ end] => destruct x eqn:?; try done
         end.
  all: match goal with
       | Hreset : resetDraggingState _ _ _ = Return _ ?w3 |- _ =>
           apply resetDraggingState_hoveredGroups in Hreset
       end.
  all: repeat match goal with
         | Hget : getInstance _ _ = Return _ _ |- _ =>
             apply getInstance_inv in Hget as [-> _]
         end.
  all: unfold call, modify, mret, M_ret in Hrun; by simplify_eq/=.
Qed.

End ComponentFacts.

(** * The properties of the specification *)

Section Claims.
Context `{!utils.Imports, !constants.Constants}.

(** C1.  A drag that ends without a drop leaves the layout as the snapshot
    taken before it: for a group item ([onDragEnd]) the committed layout has
    the items of the snapshot, in the same order, with the same identifier
    and rectangle and every other field but the transient placeholder mark
    of the dragged item; it is the snapshot itself when that item carries no
    mark there.  For a card whose copy is in the layout
    ([onCardItemDragEnd]) it is the snapshot itself. *)
Theorem cancel_restores_snapshot this item itemType w inst snap :
  World.instances w !! this = Some inst →
  State.oldLayouts (Layout.state inst) = Some snap →
  (itemType = Layout.group inst ∨ is_Some (World.groupLayouts w !! itemType) →
   ∃ w' inst',
     onDragEnd this item false itemType w = Return () w' ∧
     World.instances w' !! this = Some inst' ∧
     Item.set_placeholder None <$> State.layouts (Layout.state inst')
       = Item.set_placeholder None <$> snap ∧
     Item.geometry <$> State.layouts (Layout.state inst') = Item.geometry <$> snap ∧
     ((∀ l, getLayoutItem snap (Item.i item) = Some l → Item.placeholder l = None) →
      State.layouts (Layout.state inst') = snap)) ∧
  (∀ draggingItem index,
     State.draggingItem (Layout.state inst) = Some draggingItem →
     findIndex (State.layouts (Layout.state inst)) (Item.i draggingItem) = Some index →
     ∃ w' inst',
       onCardItemDragEnd this item false itemType w = Return () w' ∧
       World.instances w' !! this = Some inst' ∧
       State.layouts (Layout.state inst') = snap).
Proof.
  intros Hinst Hsnap. split.
  - intros Hgroup.
    destruct (onDragEnd_cancel_run this item itemType w inst snap Hinst Hsnap Hgroup)
      as (w' & inst' & Hrun & Hinst' & Hlayouts & _).
    exists w', inst'. split; [done|]. split; [done|]. rewrite Hlayouts.
    destruct (findIndex snap (Item.i item)) as [k|] eqn:Hk; [|done].
    split; [|split].
    + by apply fmap_alter_absorb.
    + apply fmap_alter_absorb. by intros [].
    + intros Hflag. apply alter_id_on. intros l Hl.
      destruct (findIndex_Some _ _ _ Hk) as (l' & Hl' & _ & Hget).
      assert (l' = l) as -> by congruence.
      specialize (Hflag _ Hget). destruct l; simpl in *; by subst.
  - intros draggingItem index Hdrag Hidx.
    destruct (onCardItemDragEnd_cancel_run this item itemType w inst snap
                draggingItem index Hinst Hsnap Hdrag Hidx)
      as (w' & inst' & Hrun & Hinst' & Hlayouts & _).
    by exists w', inst'.
Qed.

(** C3.  [onLayoutMaybeChanged] calls the host's [onLayoutChange] exactly
    when [isEqual] finds the layout it compares with (the one handed over,
    the state's when none is) different from the new one.  On a drop within
    the group and on the end of a resize the comparison is with the snapshot
    taken when the drag or the resize started: a change is reported exactly
    when the committed layout differs from it. *)
Theorem layout_change_reported_iff_differs this w inst snap :
  World.instances w !! this = Some inst →
  Props.onLayoutChange (Layout.props inst) = true →
  State.oldLayouts (Layout.state inst) = Some snap →
  (∀ newLayouts oldLayouts,
     let compared := default (State.layouts (Layout.state inst)) oldLayouts in
     ∃ w',
       onLayoutMaybeChanged this newLayouts oldLayouts w
         = Return (utils.isEqual compared newLayouts) w' ∧
       World.instances w' = World.instances w ∧
       World.calls w' =
         World.calls w
         ++ (if utils.isEqual compared newLayouts then []
             else [CallLayoutChange this newLayouts])) ∧
  (∀ dragItem draggingItem index l,
     State.draggingItem (Layout.state inst) = Some draggingItem →
     findIndex (State.layouts (Layout.state inst)) (Item.i draggingItem) = Some index →
     State.layouts (Layout.state inst) !! index = Some l →
     let committed :=
       <[index := Item.set_placeholder None l]> (State.layouts (Layout.state inst)) in
     ∃ w' inst',
       onDrop this dragItem (Layout.group inst) w = Return () w' ∧
       World.instances w' !! this = Some inst' ∧
       State.layouts (Layout.state inst') = committed ∧
       World.calls w' =
         World.calls w
         ++ (if utils.isEqual snap committed then []
             else [CallLayoutChange this committed])
         ++ (if Props.onDrop (Layout.props inst)
             then [CallDrop this committed (Item.set_placeholder None l) dragItem
                     (Layout.group inst) (Layout.group inst)]
             else [])) ∧
  (let newLayouts :=
     utils.compact (State.layouts (Layout.state inst))
       (Props.compactType (Layout.props inst)) (Props.cols (Layout.props inst)) in
   ∃ w',
     onResizeStop this w = Return () w' ∧
     World.calls w' =
       World.calls w
       ++ (if utils.isEqual snap newLayouts then [] else [CallLayoutChange this newLayouts])
       ++ (if Props.onResizeStop (Layout.props inst)
           then [CallResizeStop this newLayouts] else [])).
Proof.
  intros Hinst Hcb Hsnap. split; [|split].
  - intros newLayouts oldLayouts compared.
    rewrite (onLayoutMaybeChanged_run _ _ _ _ _ Hinst). simpl. fold compared.
    eexists. split; [reflexivity|]. split; [done|]. simpl.
    unfold layoutChangeCalls. rewrite Hcb.
    by destruct (utils.isEqual compared newLayouts).
  - intros dragItem draggingItem index l Hdrag Hidx Hl committed.
    destruct (onDrop_own_group_run this dragItem w inst draggingItem index l
                Hinst Hdrag Hidx Hl)
      as (w' & inst' & Hrun & Hinst' & Hlayouts & _ & _ & _ & Hcalls).
    exists w', inst'. split; [done|]. split; [done|]. split; [done|].
    rewrite Hcalls, Hsnap. simpl. fold committed.
    unfold layoutChangeCalls. rewrite Hcb.
    by destruct (utils.isEqual snap committed).
  - intros newLayouts.
    destruct (onResizeStop_run this w inst Hinst)
      as (w' & inst' & Hrun & _ & _ & _ & Hcalls).
    exists w'. split; [done|].
    rewrite Hcalls, Hsnap. simpl. fold newLayouts.
    unfold layoutChangeCalls. rewrite Hcb.
    by destruct (utils.isEqual snap newLayouts).
Qed.

(** C4.  On a hover tick with more than one group marked hovered,
    [removeHoverdGroupItem] takes the dragged item out of the layout of every
    other hovered group, which is compacted again, and leaves the current
    group as the only hovered one; the current group and the groups not
    hovered keep their layouts.  When compaction keeps the identifiers and
    the identifiers of a layout are distinct, no other hovered group holds
    the item any more. *)
Theorem hover_releases_other_groups this layoutItem w inst :
  World.instances w !! this = Some inst →
  (1 < length (World.hoveredGroups w))%nat →
  NoDup (World.hoveredGroups w) →
  registered w →
  ∃ w',
    removeHoverdGroupItem this layoutItem w = Return () w' ∧
    World.hoveredGroups w' = [Layout.group inst] ∧
    World.groupLayouts w' = World.groupLayouts w ∧
    (∀ g r layout,
       g ∈ World.hoveredGroups w → g ≠ Layout.group inst →
       World.groupLayouts w !! g = Some r → World.instances w !! r = Some layout →
       World.instances w' !! r = Some (released layoutItem layout) ∧
       (∀ index,
          findIndex (State.layouts (Layout.state layout)) (Item.i layoutItem) = Some index →
          State.layouts (Layout.state (released layoutItem layout)) =
            utils.compact (delete index (State.layouts (Layout.state layout)))
              (Props.compactType (Layout.props layout)) (Props.cols (Layout.props layout))) ∧
       ((∀ layouts compactType cols,
           Item.i <$> utils.compact layouts compactType cols = Item.i <$> layouts) →
        NoDup (Item.i <$> State.layouts (Layout.state layout)) →
        Item.i layoutItem
          ∉ Item.i <$> State.layouts (Layout.state (released layoutItem layout)))) ∧
    (∀ r layout,
       World.instances w !! r = Some layout →
       Layout.group layout = Layout.group inst
       ∨ Layout.group layout ∉ World.hoveredGroups w →
       World.instances w' !! r = Some layout).
Proof.
  intros Hinst Hlen Hnd Hreg. unfold removeHoverdGroupItem.
  unfold mbind, M_bind, get, modify.
  rewrite (getInstance_run _ _ _ Hinst).
  rewrite bool_decide_eq_true_2 by done.
  destruct (forEach_release layoutItem (Layout.group inst) (World.hoveredGroups w) w
              Hreg Hnd) as (w1 & Hrun & Hgl & _ & _ & _ & _ & Hinsts).
  unfold mbind, M_bind in Hrun. rewrite Hrun.
  eexists. split; [reflexivity|]. simpl.
  split; [done|]. split; [done|]. split.
  - intros g r layout Hg Hcur Hgr Hr.
    destruct (registered_lookup _ _ _ Hreg Hgr) as (layout0 & Hr0 & Hgroup).
    assert (layout0 = layout) as -> by congruence.
    split; [|split].
    + rewrite Hinsts, Hr. simpl.
      rewrite (proj2 (releasing_true w _ _ r layout)); [done|].
      by rewrite Hgroup.
    + intros index Hidx. unfold released. by rewrite Hidx.
    + intros Hids Hndl. unfold released.
      destruct (findIndex _ _) as [index|] eqn:Hidx; simpl.
      * rewrite Hids. by apply delete_removes_id.
      * by apply findIndex_None.
  - intros r layout Hr Hkeep. rewrite Hinsts, Hr. simpl.
    rewrite releasing_false; [done|]. intros (Hin & Hcur & _).
    destruct Hkeep; done.
Qed.


(** C6.  The layouts the host supplies enter the state through [reLayout]:
    the constructor stores [reLayout] of the prop; when no interaction is in
    progress and the prop differs from the state, the derived state has
    [reLayout] of the prop for layouts and is otherwise the previous one;
    while a group is hovered or a resize placeholder is set, the props are
    ignored and the state is the previous one. *)
Theorem layouts_enter_through_reLayout w props prevState :
  let normalized :=
    utils.reLayout (Props.layouts props) (Props.compactType props) (Props.cols props) in
  (∃ this w' inst,
     constructor props w = Return this w' ∧
     World.instances w' !! this = Some inst ∧
     Layout.props inst = props ∧
     State.layouts (Layout.state inst) = normalized) ∧
  (World.hoveredGroups w = [] → State.placeholder prevState = None →
   utils.isEqual (Props.layouts props) (State.layouts prevState) = false →
   getDerivedStateFromProps w props prevState = Some normalized ∧
   deriveState w props prevState = State.set_layouts normalized prevState) ∧
  (World.hoveredGroups w = [] → State.placeholder prevState = None →
   utils.isEqual (Props.layouts props) (State.layouts prevState) = true →
   deriveState w props prevState = prevState) ∧
  (World.hoveredGroups w ≠ [] ∨ is_Some (State.placeholder prevState) →
   getDerivedStateFromProps w props prevState = None ∧
   deriveState w props prevState = prevState).
Proof.
  intros normalized. split; [|split; [|split]].
  - destruct (constructor props w) as [this w'|] eqn:Hc; [|done].
    destruct (constructor_instance _ _ _ _ Hc) as (inst & Hinst & Hprops & _ & Hl & _).
    by exists this, w', inst.
  - intros Hh Hp Hne. rewrite (deriveState_idle _ _ _ Hh Hp), Hne.
    split; [|done]. unfold getDerivedStateFromProps. rewrite Hh, Hp, Hne. done.
  - intros Hh Hp Heq. by rewrite (deriveState_idle _ _ _ Hh Hp), Heq.
  - apply deriveState_busy.
Qed.

(** C9.  Every construction adds one to the counter, whatever the group prop.
    Of two instances constructed without a group prop, whatever the component
    does in between, each gets the default group name with the value the
    counter had when it was constructed; the two names differ, and each
    instance is registered under its own. *)
Theorem default_group_names_distinct w0 w1 w2 w3 p1 p2 events r1 r2 :
  constructor p1 w0 = Return r1 w1 →
  run events w1 = Return () w2 →
  constructor p2 w2 = Return r2 w3 →
  World.groupIndex w1 = S (World.groupIndex w0) ∧
  World.groupIndex w3 = S (World.groupIndex w2) ∧
  (Props.group p1 = "" → Props.group p2 = "" →
   ∃ inst1 inst2,
     World.instances w1 !! r1 = Some inst1 ∧
     World.instances w3 !! r2 = Some inst2 ∧
     Layout.group inst1 = defaultGroupName (World.groupIndex w0) ∧
     Layout.group inst2 = defaultGroupName (World.groupIndex w2) ∧
     Layout.group inst1 ≠ Layout.group inst2 ∧
     World.groupLayouts w1 !! Layout.group inst1 = Some r1 ∧
     World.groupLayouts w3 !! Layout.group inst2 = Some r2).
Proof.
  intros Hc1 Hrun Hc2.
  destruct (constructor_instance _ _ _ _ Hc1)
    as (inst1 & Hinst1 & _ & Hg1 & _ & _ & Hreg1 & Hidx1).
  destruct (constructor_instance _ _ _ _ Hc2)
    as (inst2 & Hinst2 & _ & Hg2 & _ & _ & Hreg2 & Hidx2).
  split; [done|]. split; [done|]. intros Hp1 Hp2.
  rewrite decide_True in Hg1 by done. rewrite decide_True in Hg2 by done.
  exists inst1, inst2. repeat split; try done.
  rewrite Hg1, Hg2. intros Heq%defaultGroupName_inj.
  pose proof (counterGrows_run events _ _ _ Hrun) as Hgrow.
  unfold counterGrows in Hgrow. lia.
Qed.

(** C10.  When the cell under the pointer is the cell recorded on the tick
    before, [moveItem] returns at once: the layout is the one it was but for
    the placeholder mark it has put on the dragged item, the dragged item
    and the recorded cell are as they were, and nothing else changes;
    neither [moveElement] nor [compact] has a part in the outcome. *)
Theorem moveItem_same_cell this k offset w inst dom parentOffset l :
  World.instances w !! this = Some inst →
  Layout.containerRef inst = Some dom →
  State.offset (Layout.state inst) = Some parentOffset →
  State.layouts (Layout.state inst) !! k = Some l →
  State.prevPosition (Layout.state inst) =
    Some (utils.calcXY (getPositionParams inst)
            (Coord.y offset - Coord.y parentOffset + Dom.parentScrollTop dom)
            (Coord.x offset - Coord.x parentOffset + Dom.parentScrollLeft dom)
            (Item.w l) (Item.h l)) →
  ∃ w' inst',
    moveItem this k offset w = Return () w' ∧
    World.instances w' !! this = Some inst' ∧
    State.layouts (Layout.state inst')
      = <[k := Item.set_placeholder (Some true) l]> (State.layouts (Layout.state inst)) ∧
    State.draggingItem (Layout.state inst') = State.draggingItem (Layout.state inst) ∧
    State.prevPosition (Layout.state inst') = State.prevPosition (Layout.state inst) ∧
    State.oldLayouts (Layout.state inst') = State.oldLayouts (Layout.state inst) ∧
    State.placeholder (Layout.state inst') = State.placeholder (Layout.state inst) ∧
    (∀ r, r ≠ this → World.instances w' !! r = World.instances w !! r) ∧
    World.groupLayouts w' = World.groupLayouts w ∧
    World.hoveredGroups w' = World.hoveredGroups w ∧
    World.calls w' = World.calls w.
Proof.
  intros Hinst Hdom Hoff Hk Hprev.
  rewrite (moveItem_same_cell_run _ _ _ _ _ _ _ _ Hinst Hdom Hoff Hk Hprev).
  eexists _, _. split; [reflexivity|].
  split; [by apply withState_lookup_eq|]. simpl.
  repeat split; try done.
  intros r Hne. by apply withState_lookup_ne.
Qed.

End Claims.

(** C2.  The drag of a card that ends on no layout leaves the hover marks as
    they are: here the layout of group [g], hovered, holds the copy of the
    card; after [onCardItemDragEnd] the list of hovered groups is still
    [g]. *)
Theorem card_cancel_keeps_hoveredGroups :
  let card := Item.box "card-1" 0 1 1 1 in
  let inst :=
    Sample.mounted "g" [Sample.a0]
      (Sample.dragging [Sample.a0; card] [Sample.a0] card (Coord.mk 0 1)) in
  ∃ w',
    onCardItemDragEnd 0 card false "card" (Sample.world [inst] ["g"]) = Return () w' ∧
    World.hoveredGroups w' = ["g"] ∧
    (State.layouts ∘ Layout.state) <$> World.instances w' !! 0%nat = Some [Sample.a0].
Proof. eexists. split; [vm_compute; reflexivity|]. by vm_compute. Qed.

(** C7.  A drop that refers to an item the layout does not hold does not
    return: here the layout holds [a] alone, the item recorded as dragged is
    [z], and [onDrop] throws. *)
Theorem drop_of_missing_item_throws :
  let inst :=
    Sample.mounted "g" [Sample.a0]
      (Sample.dragging [Sample.a0] [Sample.a0] (Item.box "z" 0 1 1 1) (Coord.mk 0 1)) in
  onDrop 0 (Item.box "z" 0 1 1 1) "g" (Sample.world [inst] ["g"]) = Throw TypeError.
Proof. by vm_compute. Qed.

Module CompactorClaims.
Import Compactor CompactorFacts.


End CompactorClaims.

(** * The properties at concrete layouts *)

Module Witnesses.
Import Sample.

(** Decide a closed proposition by evaluation. *)
Ltac by_evaluation := apply (bool_decide_unpack _); by vm_compute.

Lemma cancel_restores_snapshot_witness :
  let w := world [midDrag] ["g"] in
  World.instances w !! 0%nat = Some midDrag ∧
  State.oldLayouts (Layout.state midDrag) = Some [a0; b0] ∧
  (∃ w' inst',
     onDragEnd 0 a0 false "g" w = Return () w' ∧
     World.instances w' !! 0%nat = Some inst' ∧
     State.layouts (Layout.state inst') = [a0; b0]) ∧
  (∃ w' inst',
     onCardItemDragEnd 0 a0 false "card" w = Return () w' ∧
     World.instances w' !! 0%nat = Some inst' ∧
     State.layouts (Layout.state inst') = [a0; b0]).
Proof.
  intros w.
  assert (World.instances w !! 0%nat = Some midDrag) as Hinst by reflexivity.
  assert (State.oldLayouts (Layout.state midDrag) = Some [a0; b0]) as Hsnap
    by reflexivity.
  split; [exact Hinst|]. split; [exact Hsnap|]. split.
  - destruct (cancel_restores_snapshot 0 a0 "g" w midDrag [a0; b0] Hinst Hsnap)
      as [Hgroup _].
    destruct (Hgroup (or_introl eq_refl)) as (w' & inst' & Hrun & Hinst' & _ & _ & Hsame).
    exists w', inst'. split; [exact Hrun|]. split; [exact Hinst'|].
    apply Hsame. intros l Hl. vm_compute in Hl. by injection Hl as <-.
  - destruct (cancel_restores_snapshot 0 a0 "card" w midDrag [a0; b0] Hinst Hsnap)
      as [_ Hcard].
    destruct (Hcard a0 0%nat eq_refl eq_refl) as (w' & inst' & Hrun & Hinst' & Hsame).
    exists w', inst'. split; [exact Hrun|]. split; [exact Hinst'|]. exact Hsame.
Defined.

Lemma layout_change_reported_iff_differs_witness :
  let w := world [midDrag] ["g"] in
  let committed := [Item.box "a" 2 0 2 1; Item.box "b" 2 1 2 1] in
  World.instances w !! 0%nat = Some midDrag ∧
  ∃ w',
    onDrop 0 a0 "g" w = Return () w' ∧
    World.calls w' =
      [CallLayoutChange 0 committed; CallDrop 0 committed (Item.box "a" 2 0 2 1) a0 "g" "g"].
Proof.
  intros w committed.
  assert (World.instances w !! 0%nat = Some midDrag) as Hinst by reflexivity.
  split; [exact Hinst|].
  destruct (layout_change_reported_iff_differs 0 w midDrag [a0; b0] Hinst eq_refl eq_refl)
    as (_ & Hdrop & _).
  destruct (Hdrop a0 a0 0%nat (Item.set_placeholder (Some true) (Item.box "a" 2 0 2 1))
              eq_refl eq_refl eq_refl) as (w' & inst' & Hrun & _ & _ & Hcalls).
  exists w'. split; [exact Hrun|]. exact Hcalls.
Defined.

Lemma hover_releases_other_groups_witness :
  (1 < length (World.hoveredGroups threeGroups))%nat ∧
  NoDup (World.hoveredGroups threeGroups) ∧
  registered threeGroups ∧
  ∃ w',
    removeHoverdGroupItem 2 a0 threeGroups = Return () w' ∧
    World.hoveredGroups w' = ["g3"] ∧
    (State.layouts ∘ Layout.state) <$> World.instances w' !! 0%nat = Some [b0] ∧
    (State.layouts ∘ Layout.state) <$> World.instances w' !! 1%nat
      = Some [Item.box "c" 0 0 4 1] ∧
    (State.layouts ∘ Layout.state) <$> World.instances w' !! 2%nat = Some [a0].
Proof.
  assert (1 < length (World.hoveredGroups threeGroups))%nat as Hlen by (simpl; lia).
  assert (NoDup (World.hoveredGroups threeGroups)) as Hnd by by_evaluation.
  assert (registered threeGroups) as Hreg by by_evaluation.
  split; [exact Hlen|]. split; [exact Hnd|]. split; [exact Hreg|].
  destruct (hover_releases_other_groups 2 a0 threeGroups
              (mounted "g3" [] (dragging [a0] [] a0 (Coord.mk 0 0)))
              eq_refl Hlen Hnd Hreg)
    as (w' & Hrun & Hhover & _ & Hothers & Hkept).
  exists w'. split; [exact Hrun|]. split; [exact Hhover|].
  split; [|split].
  - destruct (Hothers "g1" 0%nat (mounted "g1" [a0; b0] (idle [a0; b0])))
      as (-> & _); [by_evaluation | done | reflexivity | reflexivity |].
    reflexivity.
  - destruct (Hothers "g2" 1%nat (mounted "g2" [a0; c0] (idle [a0; c0])))
      as (-> & _); [by_evaluation | done | reflexivity | reflexivity |].
    reflexivity.
  - rewrite (Hkept 2%nat (mounted "g3" [] (dragging [a0] [] a0 (Coord.mk 0 0))));
      [reflexivity | reflexivity | by left].
Defined.

Lemma default_group_names_distinct_witness :
  let p1 := props "" [a0] in
  let p2 := props "" [b0] in
  let events := [Construct (props "named" []); WillUnmount 0; OnDragStart 1] in
  let w1 := after (constructor p1) World.initial in
  let w2 := after (run events) w1 in
  let w3 := after (constructor p2) w2 in
  constructor p1 World.initial = Return 0%nat w1 ∧
  run events w1 = Return () w2 ∧
  constructor p2 w2 = Return 2%nat w3 ∧
  Layout.group <$> World.instances w3 !! 0%nat = Some "default_group_0" ∧
  Layout.group <$> World.instances w3 !! 2%nat = Some "default_group_2" ∧
  World.groupLayouts w3 !! "default_group_2" = Some 2%nat.
Proof.
  intros p1 p2 events w1 w2 w3.
  assert (constructor p1 World.initial = Return 0%nat w1) as H1 by (by vm_compute).
  assert (run events w1 = Return () w2) as H2 by (by vm_compute).
  assert (constructor p2 w2 = Return 2%nat w3) as H3 by (by vm_compute).
  split; [exact H1|]. split; [exact H2|]. split; [exact H3|].
  destruct (default_group_names_distinct _ _ _ _ _ _ _ _ _ H1 H2 H3)
    as (_ & _ & Hnames).
  destruct (Hnames eq_refl eq_refl)
    as (inst1 & inst2 & _ & Hinst2 & _ & Hg2 & _ & _ & Hreg2).
  split; [by vm_compute|].
  rewrite Hinst2. simpl. rewrite Hg2 in *.
  split; [by vm_compute | exact Hreg2].
Defined.

Lemma moveItem_same_cell_witness :
  let inst := mounted "g" [a0; b0] (dragging [a0; b0] [a0; b0] a0 (Coord.mk 2 1)) in
  let w := world [inst] ["g"] in
  State.prevPosition (Layout.state inst)
    = Some (utils.calcXY (getPositionParams inst) 50 250 2 1) ∧
  ∃ w' inst',
    moveItem 0 0 (Coord.mk 250 50) w = Return () w' ∧
    World.instances w' !! 0%nat = Some inst' ∧
    State.layouts (Layout.state inst') = [Item.set_placeholder (Some true) a0; b0] ∧
    State.draggingItem (Layout.state inst') = Some a0 ∧
    State.prevPosition (Layout.state inst') = Some (Coord.mk 2 1).
Proof.
  intros inst w.
  assert (State.prevPosition (Layout.state inst)
          = Some (utils.calcXY (getPositionParams inst) 50 250 2 1)) as Hprev
    by (by vm_compute).
  split; [exact Hprev|].
  destruct (moveItem_same_cell 0 0 (Coord.mk 250 50) w inst container (Coord.mk 0 0) a0
              eq_refl eq_refl eq_refl eq_refl Hprev)
    as (w' & inst' & Hrun & Hinst' & Hlayouts & Hdrag & Hcell & _).
  exists w', inst'. split; [exact Hrun|]. split; [exact Hinst'|].
  split; [exact Hlayouts|]. split; [exact Hdrag | exact Hcell].
Defined.

End Witnesses.

(** * The model at work *)

Module Examples.
Import Sample.

(** Vertical compaction: [c] and [a] go up, [a] as far as the static item,
    and [b] comes to rest on [a]. *)
Example compact_vertical_example :
  Item.geometry <$>
    Compactor.compact
      [Item.box "a" 0 2 1 1; Item.fixed "s" 0 0 1 1; Item.box "b" 0 5 2 2;
       Item.box "c" 1 1 1 1] vertical 12
  = [("a", 0, 1, 1, 1); ("s", 0, 0, 1, 1); ("b", 0, 2, 2, 2); ("c", 1, 0, 1, 1)].
Proof. by vm_compute. Qed.

(** Horizontal compaction with 10 columns: [a], of width 8 at column 12, is
    brought to column 2 by the clamp and slides to column 0, past the
    static item of the last column. *)
Example compact_horizontal_example :
  Item.geometry <$>
    Compactor.compact [Item.fixed "s" 9 0 1 1; Item.box "a" 12 0 8 1] horizontal 10
  = [("s", 9, 0, 1, 1); ("a", 0, 0, 8, 1)].
Proof. by vm_compute. Qed.

(** Resizing [a] to 3 by 2 among [b] on its right and [c] below, collisions
    prevented: it keeps its size of 2 by 1. *)
Example onResizeItem_example :
  Item.geometry (onResizeItem [a0; b0; c0] true 3 2 a0) = ("a", 0, 0, 2, 1).
Proof. by vm_compute. Qed.

(** The same resize with collisions allowed. *)
Example onResizeItem_free_example :
  Item.geometry (onResizeItem [a0; b0; c0] false 3 2 a0) = ("a", 0, 0, 3, 2).
Proof. by vm_compute. Qed.

(** Two layouts without a group prop and one with. *)
Example constructor_example :
  World.groupLayouts
    (after (run [Construct (props "" []); Construct (props "side" []);
                 Construct (props "" [])]) World.initial)
  = {[ "default_group_0" := 0%nat; "side" := 1%nat; "default_group_2" := 2%nat ]}.
Proof. by vm_compute. Qed.

(** A drag of [a] that is dropped where it started reports no change. *)
Example onDrop_unchanged_example :
  let inst :=
    mounted "g" [a0; b0]
      (dragging [Item.set_placeholder (Some true) a0; b0] [a0; b0] a0 (Coord.mk 0 0)) in
  World.calls (after (onDrop 0 a0 "g") (world [inst] ["g"]))
  = [CallDrop 0 [a0; b0] a0 a0 "g" "g"].
Proof. by vm_compute. Qed.

End Examples.

(** * Facts about the rest of the component *)

(** ** What is kept of every instance *)

#[global] Instance keeps_preorder {A} (proj : Layout → A) : PreOrder (keeps proj).
Proof.
  split.
  - intros w r inst Hr. eauto.
  - intros w1 w2 w3 H12 H23 r inst Hr.
    destruct (H12 r inst Hr) as (inst2 & Hr2 & Heq2).
    destruct (H23 r inst2 Hr2) as (inst3 & Hr3 & Heq3).
    exists inst3. split; [done | congruence].
Qed.

Lemma keeps_alter {A} (proj : Layout → A) (f : Layout → Layout) r w :
  (∀ inst, proj (f inst) = proj inst) →
  keeps proj w (World.set_instances (alter f r (World.instances w)) w).
Proof.
  intros Hf r' inst Hr'. simpl.
  destruct (decide (r = r')) as [<- | Hne].
  - rewrite lookup_alter_eq, Hr'. simpl. eauto.
  - rewrite lookup_alter_ne by done. eauto.
Qed.

Lemma keeps_withState {A} (proj : Layout → A) r f w :
  (∀ inst, proj (Layout.set_state (f (Layout.state inst)) inst) = proj inst) →
  keeps proj w (withState r f w).
Proof. intros Hf. unfold withState. by apply keeps_alter. Qed.

Lemma keeps_same {A} (proj : Layout → A) w w' :
  World.instances w' = World.instances w → keeps proj w w'.
Proof. intros Heq r inst Hr. rewrite Heq. eauto. Qed.

(** One step of a method, for a relation of the form [keeps proj]: a write
    to the state of an instance that leaves what [proj] reads, a write to
    the module's variables, or a step of the evaluation. *)
Ltac keeps_step :=
  first
    [ apply respects_modify; intros ?; apply keeps_withState;
      intros [? ? [] ? ?]; reflexivity
    | apply respects_modify; intros ?; apply keeps_alter;
      intros [? ? [] ? ?]; reflexivity
    | apply respects_modify; intros ?; apply keeps_same; reflexivity
    | respects_step ].

Ltac keeps_method := unfold setState, inPlace, call; repeat keeps_step.

Section KeepsFacts.
Context `{!utils.Imports, !constants.Constants}.

(** The constructor writes to the instances there are nothing but the
    listeners of the ones that use a default group name. *)
Lemma listenMounted_keeps {A} (proj : Layout → A) groupLayouts keys instances r inst :
  (∀ n inst, usesDefaultGroup inst = true →
             proj (Layout.set_mountedListeners n inst) = proj inst) →
  instances !! r = Some inst →
  ∃ inst',
    foldl (λ acc key, listenMounted groupLayouts key acc) instances keys !! r
      = Some inst' ∧
    proj inst' = proj inst.
Proof.
  intros Hproj. revert instances inst.
  induction keys as [|key keys IH]; intros instances inst Hr; simpl; [eauto|].
  assert (∃ inst1, listenMounted groupLayouts key instances !! r = Some inst1
                   ∧ proj inst1 = proj inst) as (inst1 & Hr1 & Heq1).
  { unfold listenMounted. destruct (groupLayouts !! key) as [r'|]; [|eauto].
    destruct (decide (r' = r)) as [-> | Hne].
    - rewrite lookup_alter_eq, Hr. simpl.
      destruct (usesDefaultGroup inst) eqn:Hd; eauto.
    - rewrite lookup_alter_ne by done. eauto. }
  destruct (IH _ _ Hr1) as (inst' & Hr' & Heq'). exists inst'.
  split; [done | congruence].
Qed.

Lemma constructor_fresh props w this w' :
  constructor props w = Return this w' → World.instances w !! this = None.
Proof.
  intros [= <- _]. apply not_elem_of_dom, is_fresh.
Qed.

Lemma keeps_constructor {A} (proj : Layout → A) props w this w' :
  (∀ n inst, usesDefaultGroup inst = true →
             proj (Layout.set_mountedListeners n inst) = proj inst) →
  constructor props w = Return this w' → keeps proj w w'.
Proof.
  intros Hproj Hc r inst Hr.
  pose proof (constructor_fresh _ _ _ _ Hc) as Hfresh.
  revert Hc. unfold constructor. intros [= <- <-]. simpl.
  assert (fresh (dom (World.instances w)) ≠ r) as Hne by (intros <-; congruence).
  case_decide.
  - apply listenMounted_keeps; [done|]. by rewrite lookup_insert_ne.
  - rewrite lookup_insert_ne by done. eauto.
Qed.

Lemma keeps_fire_construct {A} (proj : Layout → A) props :
  (∀ n inst, usesDefaultGroup inst = true →
             proj (Layout.set_mountedListeners n inst) = proj inst) →
  respects (keeps proj) (fire (Construct props)).
Proof.
  intros Hproj w a w'. simpl. unfold mbind, M_bind.
  destruct (constructor props w) as [r w1|] eqn:Hc; [|done].
  intros [= _ <-]. by eapply keeps_constructor.
Qed.

(** ** The snapshot during a drag *)

Lemma keeps_snapshot_tick e :
  isTick e = true → respects (keeps snapshotOf) (fire e).
Proof.
  destruct e; try done; intros _; simpl.
  - unfold removeHoverdGroupItem, removeOtherGroupItem. keeps_method.
  - unfold moveItem, calcXY. keeps_method.
  - unfold onResize. keeps_method.
Qed.

Lemma keeps_snapshot_ticks ticks :
  Forall (λ e, isTick e = true) ticks → respects (keeps snapshotOf) (run ticks).
Proof.
  induction 1 as [|e ticks He _ IH]; simpl.
  - apply respects_ret.
  - apply respects_bind; [by apply keeps_snapshot_tick | intros _; apply IH].
Qed.

End KeepsFacts.

(** ** What every action leaves as it is *)

Section ActionInvariance.
Context `{!utils.Imports, !constants.Constants}.
Context {R : relation World} `{!PreOrder R}.

Hypothesis R_instance :
  ∀ r f w,
    (∀ inst, Layout.group (f inst) = Layout.group inst ∧
             Layout.mountedListeners (f inst) = Layout.mountedListeners inst) →
    R w (World.set_instances (alter f r (World.instances w)) w).
Hypothesis R_calls : ∀ v w, R w (World.set_calls v w).
Hypothesis R_hovered_none : ∀ w, R w (World.set_hoveredGroups [] w).
Hypothesis R_hovered_one : ∀ g w, R w (World.set_hoveredGroups [g] w).
Hypothesis R_unregister :
  ∀ g w, R w (World.set_groupLayouts (delete g (World.groupLayouts w)) w).
Hypothesis R_constructor :
  ∀ props w this w', constructor props w = Return this w' → R w w'.

Lemma invariant_withState r f w : R w (withState r f w).
Proof. unfold withState. apply R_instance. by intros []. Qed.

Ltac action_step :=
  first
    [ apply respects_modify; intros ?; apply invariant_withState
    | apply respects_modify; intros ?; apply R_instance; intros []; done
    | apply respects_modify; intros ?; apply R_calls
    | respects_step ].

Lemma invariant_initStates this containerDOM :
  respects R (initStates this containerDOM).
Proof. unfold initStates, setState. repeat action_step. Qed.

Lemma invariant_emitMounted this : respects R (emitMounted this).
Proof. unfold emitMounted, setState. repeat action_step. Qed.

Lemma invariant_componentDidMount this nested :
  respects R (componentDidMount this nested).
Proof.
  unfold componentDidMount.
  repeat first [ apply invariant_initStates | apply invariant_emitMounted
               | apply (invariant_onLayoutMaybeChanged invariant_withState R_calls)
               | action_step ].
Qed.

Lemma invariant_perform a : respects R (perform a).
Proof.
  destruct a; simpl.
  - by apply (invariant_fire invariant_withState).
  - apply invariant_componentDidMount.
  - apply invariant_initStates.
  - unfold resize, setState. repeat action_step.
  - unfold attachRef. repeat action_step.
  - unfold receiveProps. repeat action_step.
Qed.

Lemma invariant_performAll actions : respects R (performAll actions).
Proof. apply respects_forEach, invariant_perform. Qed.

End ActionInvariance.

Section RegistryFacts.
Context `{!utils.Imports, !constants.Constants}.


Lemma registered_alter f r w :
  (∀ inst, Layout.group (f inst) = Layout.group inst) →
  registered w → registered (World.set_instances (alter f r (World.instances w)) w).
Proof.
  intros Hf Hreg g r' Hg. specialize (Hreg g r' Hg). simpl in *.
  rewrite lookup_alter. case_decide; [subst|done].
  destruct (World.instances w !! r'); simpl in *; [|done]. by rewrite Hf.
Qed.

(** ** The listeners of the ['mounted'] event *)

#[local] Instance listenersGrow_preorder : PreOrder listenersGrow.
Proof.
  split.
  - intros w r inst Hr. eauto.
  - intros w1 w2 w3 H12 H23 r inst Hr.
    destruct (H12 r inst Hr) as (inst2 & Hr2 & Hg2 & Hn2).
    destruct (H23 r inst2 Hr2) as (inst3 & Hr3 & Hg3 & Hn3).
    exists inst3. split; [done|]. split; [congruence | lia].
Qed.

Lemma listenMounted_grows groupLayouts keys instances r inst :
  instances !! r = Some inst →
  ∃ n, (Layout.mountedListeners inst ≤ n)%nat ∧
       foldl (λ acc key, listenMounted groupLayouts key acc) instances keys !! r
       = Some (Layout.set_mountedListeners n inst).
Proof.
  revert instances inst. induction keys as [|key keys IH]; intros instances inst Hr.
  { exists (Layout.mountedListeners inst). simpl.
    by rewrite set_mountedListeners_same. }
  simpl.
  assert (∃ n, (Layout.mountedListeners inst ≤ n)%nat ∧
               listenMounted groupLayouts key instances !! r
               = Some (Layout.set_mountedListeners n inst)) as (n & Hle & Hn).
  { unfold listenMounted. destruct (groupLayouts !! key) as [r'|].
    - rewrite lookup_alter. case_decide; subst; rewrite Hr; simpl.
      + destruct (usesDefaultGroup inst).
        * exists (S (Layout.mountedListeners inst)). split; [lia | done].
        * exists (Layout.mountedListeners inst).
          by rewrite set_mountedListeners_same.
      + exists (Layout.mountedListeners inst).
        by rewrite set_mountedListeners_same.
    - exists (Layout.mountedListeners inst).
      by rewrite Hr, set_mountedListeners_same. }
  destruct (IH _ _ Hn) as (n' & Hle' & Hn'). exists n'. simpl in *.
  split; [lia|]. rewrite Hn'. by destruct inst.
Qed.

Lemma listenersGrow_constructor props w this w' :
  constructor props w = Return this w' → listenersGrow w w'.
Proof.
  intros Hc r inst Hr.
  pose proof (constructor_fresh _ _ _ _ Hc) as Hfresh.
  revert Hc. unfold constructor. intros [= <- <-]. simpl.
  assert (fresh (dom (World.instances w)) ≠ r) as Hne by (intros <-; congruence).
  case_decide.
  - edestruct listenMounted_grows as (n & Hle & ->);
      [by rewrite lookup_insert_ne|].
    eexists. split; [done|]. simpl. split; [done | lia].
  - rewrite lookup_insert_ne by done. eauto.
Qed.

Lemma listenersGrow_performAll actions : respects listenersGrow (performAll actions).
Proof.
  apply invariant_performAll.
  - intros r f w Hf r' inst Hr'. simpl.
    destruct (decide (r = r')) as [<- | Hne].
    + rewrite lookup_alter_eq, Hr'. simpl. eexists. split; [done|].
      destruct (Hf inst) as [-> ->]. split; [done | lia].
    + rewrite lookup_alter_ne by done. eauto.
  - intros v w r inst Hr. eauto.
  - intros w r inst Hr. eauto.
  - intros g w r inst Hr. eauto.
  - intros g w r inst Hr. eauto.
  - apply listenersGrow_constructor.
Qed.

End RegistryFacts.

(** ** Mounting *)

Section MountingFacts.
Context `{!utils.Imports, !constants.Constants}.

Lemma withState_twice r f w :
  (∀ st, f (f st) = f st) → withState r f (withState r f w) = withState r f w.
Proof.
  intros Hf. unfold withState, World.set_instances. simpl. f_equal.
  apply map_eq. intros r'. destruct (decide (r = r')) as [<- | Hne].
  - rewrite !lookup_alter_eq.
    destruct (World.instances w !! r) as [inst|]; simpl; [|done].
    by rewrite Hf.
  - by rewrite !lookup_alter_ne.
Qed.

Lemma emitMounted_loop this n w :
  forEach (replicate n ()) (λ _,
    w ← get; setState this (State.set_accept (World.groupKeys w))) w
  = Return () (match n with
               | O => w
               | S _ => withState this (State.set_accept (World.groupKeys w)) w
               end).
Proof.
  revert w. induction n as [|n IH]; intros w; [done|].
  simpl. mrun. unfold mbind, M_bind in IH. rewrite IH.
  destruct n; [done|]. simpl. by rewrite withState_twice.
Qed.

Lemma emitMounted_run this w inst :
  World.instances w !! this = Some inst →
  emitMounted this w =
    Return () (match Layout.mountedListeners inst with
               | O => w
               | S _ => withState this (State.set_accept (World.groupKeys w)) w
               end).
Proof.
  intros Hinst. unfold emitMounted. unfold mbind, M_bind at 1.
  rewrite (getInstance_run _ _ _ Hinst). apply emitMounted_loop.
Qed.

Lemma componentDidMount_run this nested w inst :
  World.instances w !! this = Some inst →
  let state := Layout.state inst in
  let equal := utils.isEqual (Props.layouts (Layout.props inst)) (State.layouts state) in
  ∃ w',
    componentDidMount this nested w = Return () w' ∧
    World.instances w' !! this =
      Some (Layout.set_state
              (State.mk (measured nested inst).1
                 (match Layout.mountedListeners inst with
                  | O => State.accept state
                  | S _ => World.groupKeys w
                  end)
                 (State.layouts state) (State.oldLayouts state) (measured nested inst).2
                 (State.placeholder state) (State.draggingItem state)
                 (State.prevPosition state)) inst) ∧
    (∀ r, r ≠ this → World.instances w' !! r = World.instances w !! r) ∧
    World.calls w' =
      World.calls w
      ++ layoutChangeCalls equal (Props.onLayoutChange (Layout.props inst)) this
           (State.layouts state) ∧
    World.groupLayouts w' = World.groupLayouts w ∧
    World.groupKeys w' = World.groupKeys w ∧
    World.groupIndex w' = World.groupIndex w ∧
    World.hoveredGroups w' = World.hoveredGroups w.
Proof.
  intros Hinst state equal. unfold componentDidMount.
  unfold mbind, M_bind at 1. rewrite (getInstance_run _ _ _ Hinst).
  set (w1 := match nested, Layout.containerRef inst with
             | false, Some containerDOM =>
                 withState this
                   (set_measures (Dom.boundingClientRect containerDOM)
                      (Dom.offsetWidth containerDOM)) w
             | _, _ => w
             end).
  assert ((if nested then mret () else initStates this (Layout.containerRef inst)) w
          = Return () w1) as Hinit.
  { unfold w1, initStates. by destruct nested, (Layout.containerRef inst). }
  set (inst1 := Layout.set_state
                  (State.mk (measured nested inst).1 (State.accept state)
                     (State.layouts state) (State.oldLayouts state)
                     (measured nested inst).2 (State.placeholder state)
                     (State.draggingItem state) (State.prevPosition state)) inst).
  assert (World.instances w1 !! this = Some inst1) as Hinst1.
  { unfold w1, inst1, measured.
    destruct nested, (Layout.containerRef inst) as [containerDOM|] eqn:Href;
      try (rewrite Hinst; f_equal; by destruct inst as [? ? [] ? ?]).
    by rewrite (withState_lookup_eq _ _ _ _ Hinst). }
  assert (World.groupKeys w1 = World.groupKeys w ∧ World.calls w1 = World.calls w ∧
          World.groupLayouts w1 = World.groupLayouts w ∧
          World.groupIndex w1 = World.groupIndex w ∧
          World.hoveredGroups w1 = World.hoveredGroups w ∧
          ∀ r, r ≠ this → World.instances w1 !! r = World.instances w !! r)
    as (Hkeys & Hcalls & Hgl & Hidx & Hhov & Hothers).
  { unfold w1. destruct nested, (Layout.containerRef inst); repeat split; try done.
    intros r Hne. by apply withState_lookup_ne. }
  unfold mbind, M_bind at 1. rewrite Hinit.
  unfold mbind, M_bind at 1. rewrite (getInstance_run _ _ _ Hinst1).
  unfold mbind, M_bind at 1.
  rewrite (onLayoutMaybeChanged_run _ _ _ _ _ Hinst1). simpl.
  fold state equal.
  match goal with |- context [emitMounted this ?w0] =>
    rewrite (emitMounted_run this w0 inst1 Hinst1) end.
  simpl. destruct (Layout.mountedListeners inst) eqn:Hn.
  - eexists. split; [reflexivity|]. simpl. rewrite Hcalls.
    repeat split; try done.
  - eexists. split; [reflexivity|]. simpl. rewrite Hcalls, Hkeys.
    repeat split; try done.
    + by rewrite lookup_alter_eq, Hinst1.
    + intros r Hne. rewrite lookup_alter_ne by done. by apply Hothers.
Qed.

(** A default group name holds [DEFAULT_GROUP]. *)
Lemma string_prefix_app s t : String.prefix s (s +:+ t) = true.
Proof.
  induction s as [|a s IH]; simpl; [by destruct t|].
  destruct (Ascii.ascii_dec a a); [done | congruence].
Qed.

Lemma index_of_prefix s u : String.prefix s u = true → is_Some (String.index 0 s u).
Proof.
  intros Hp. destruct u as [|b u].
  - destruct s; [by eexists | done].
  - unfold String.index. rewrite Hp. by eexists.
Qed.

Lemma index_prefix s t : is_Some (String.index 0 s (s +:+ t)).
Proof. apply index_of_prefix, string_prefix_app. Qed.

Lemma usesDefaultGroup_default inst n :
  Layout.group inst = defaultGroupName n → usesDefaultGroup inst = true.
Proof.
  intros Hg. unfold usesDefaultGroup. rewrite Hg.
  apply bool_decide_eq_true. apply index_prefix.
Qed.

(** ** The constructor, in full *)

Lemma usesDefaultGroup_set_mountedListeners n inst :
  usesDefaultGroup (Layout.set_mountedListeners n inst) = usesDefaultGroup inst.
Proof. done. Qed.

Lemma listenMounted_counts groupLayouts keys instances key r inst :
  key ∈ keys → groupLayouts !! key = Some r → instances !! r = Some inst →
  usesDefaultGroup inst = true →
  ∃ n, (Layout.mountedListeners inst < n)%nat ∧
       foldl (λ acc key, listenMounted groupLayouts key acc) instances keys !! r
       = Some (Layout.set_mountedListeners n inst).
Proof.
  intros Hin Hkey. revert instances inst.
  induction keys as [|key' keys IH]; intros instances inst Hr Hd.
  { by apply elem_of_nil in Hin. }
  simpl. destruct (decide (key' = key)) as [-> | Hne].
  - assert (listenMounted groupLayouts key instances !! r
            = Some (Layout.set_mountedListeners (S (Layout.mountedListeners inst)) inst))
      as Hstep.
    { unfold listenMounted. by rewrite Hkey, lookup_alter_eq, Hr; simpl; rewrite Hd. }
    destruct (listenMounted_grows groupLayouts keys _ _ _ Hstep) as (n & Hle & Hn).
    exists n. simpl in Hle. split; [lia|]. rewrite Hn. by destruct inst.
  - apply elem_of_cons in Hin as [-> | Hin]; [done|].
    destruct (listenMounted_grows groupLayouts [key'] _ _ _ Hr) as (n1 & Hle1 & Hn1).
    simpl in Hn1.
    destruct (IH Hin _ _ Hn1) as (n & Hlt & Hn); [done|].
    exists n. simpl in Hlt. split; [lia|]. rewrite Hn. by destruct inst.
Qed.

Lemma constructor_state props w this w' :
  constructor props w = Return this w' →
  let name :=
    if decide (Props.group props = "")
    then defaultGroupName (World.groupIndex w) else Props.group props in
  World.instances w !! this = None ∧
  World.groupLayouts w' = <[name := this]> (World.groupLayouts w) ∧
  World.groupKeys w' =
    (map_to_list (World.groupLayouts w')).*1 ++ [constants.DEFAULT_ITEMTYPE] ∧
  World.groupIndex w' = S (World.groupIndex w) ∧
  World.calls w' = World.calls w ∧
  World.hoveredGroups w' = World.hoveredGroups w ∧
  ∃ n,
    World.instances w' !! this =
      Some (Layout.mk name props
              (State.mk None (World.groupKeys w')
                 (utils.reLayout (Props.layouts props) (Props.compactType props)
                    (Props.cols props))
                 None 0 None None None)
              None n) ∧
    (Props.group props = "" → (1 ≤ n)%nat) ∧
    (Props.group props ≠ "" → n = 0%nat).
Proof.
  intros Hc name. split; [by eapply constructor_fresh|].
  revert Hc. unfold constructor. intros [= <- <-]. simpl. fold name.
  repeat (split; [done|]).
  set (this := fresh (dom (World.instances w))).
  set (groupLayouts := <[name := this]> (World.groupLayouts w)).
  set (groupKeys := (map_to_list groupLayouts).*1 ++ [constants.DEFAULT_ITEMTYPE]).
  set (inst0 := Layout.mk name props _ None 0%nat).
  assert (<[this := inst0]> (World.instances w) !! this = Some inst0) as Hthis
    by apply lookup_insert_eq.
  destruct (decide (Props.group props = "")) as [Hg | Hg].
  - destruct (listenMounted_counts groupLayouts groupKeys
                (<[this := inst0]> (World.instances w)) name this inst0)
      as (n & Hlt & Hn); try done.
    + unfold groupKeys. apply elem_of_app. left. apply list_elem_of_fmap.
      exists (name, this). split; [done|]. apply elem_of_map_to_list.
      apply lookup_insert_eq.
    + apply lookup_insert_eq.
    + by apply (usesDefaultGroup_default _ (World.groupIndex w)).
    + exists n. split; [by rewrite Hn|]. split; [simpl in Hlt; lia | done].
  - exists 0%nat. split; [by rewrite Hthis|]. done.
Qed.

End MountingFacts.

(** ** The groups an instance accepts *)

Section AcceptFacts.
Context `{!utils.Imports, !constants.Constants}.

Lemma deriveState_accept w props st :
  State.accept (deriveState w props st) = State.accept st.
Proof. unfold deriveState. by destruct (getDerivedStateFromProps _ _ _). Qed.

Lemma keeps_accept_fire e : respects (keeps acceptOf) (fire e).
Proof.
  destruct e; simpl.
  - apply keeps_fire_construct. intros n inst Hd. unfold acceptOf.
    by rewrite usesDefaultGroup_set_mountedListeners, Hd.
  - unfold componentWillUnmount. keeps_method.
  - unfold removeHoverdGroupItem, removeOtherGroupItem. keeps_method.
  - unfold moveItem, calcXY. keeps_method.
  - unfold onDrop, onLayoutMaybeChanged, resetDraggingState. keeps_method.
  - unfold onDragStart. keeps_method.
  - unfold onDragEnd, isGroupItem, resetDraggingState. keeps_method.
  - unfold onCardItemDragEnd, onDrop, onLayoutMaybeChanged, resetDraggingState.
    keeps_method.
  - unfold onResize. keeps_method.
  - unfold onResizeStop, onLayoutMaybeChanged. keeps_method.
Qed.

Lemma keeps_accept_componentDidMount this nested :
  respects (keeps acceptOf) (componentDidMount this nested).
Proof.
  intros w a w' Hrun.
  destruct (World.instances w !! this) as [inst|] eqn:Hinst.
  - destruct (componentDidMount_run this nested w inst Hinst)
      as (w1 & Hrun1 & Hthis & Hothers & _).
    rewrite Hrun1 in Hrun. injection Hrun as Heq. subst w'.
    intros r inst0 Hr. destruct (decide (r = this)) as [-> | Hne].
    + rewrite Hthis. eexists. split; [done|].
      assert (inst0 = inst) as -> by congruence.
      unfold acceptOf, usesDefaultGroup. simpl.
      by destruct (Layout.mountedListeners inst).
    + rewrite Hothers by done. eauto.
  - revert Hrun. unfold componentDidMount, mbind, M_bind, getInstance.
    by rewrite Hinst.
Qed.

Lemma keeps_accept_perform a : respects (keeps acceptOf) (perform a).
Proof.
  destruct a; simpl.
  - apply keeps_accept_fire.
  - apply keeps_accept_componentDidMount.
  - unfold initStates. keeps_method.
  - unfold resize. keeps_method.
  - unfold attachRef. keeps_method.
  - unfold receiveProps. keeps_method.
    apply respects_modify. intros w. apply keeps_alter. intros inst.
    unfold acceptOf, usesDefaultGroup. simpl. by rewrite deriveState_accept.
Qed.

Lemma keeps_accept_performAll actions : respects (keeps acceptOf) (performAll actions).
Proof. apply respects_forEach, keeps_accept_perform. Qed.

End AcceptFacts.

(** ** Drops *)


Section DropFacts.
Context `{!utils.Imports, !constants.Constants}.


End DropFacts.

(** ** The instance a method writes to *)

#[global] Instance onlyWrites_preorder this : PreOrder (onlyWrites this).
Proof.
  split.
  - intros w. by repeat split.
  - intros w1 w2 w3 (Hi12 & Hg12 & Hk12 & Hn12) (Hi23 & Hg23 & Hk23 & Hn23).
    repeat split; try congruence.
    intros r Hr. by rewrite Hi23, Hi12.
Qed.

Lemma onlyWrites_withState this f w : onlyWrites this w (withState this f w).
Proof. repeat split. intros r Hr. by apply withState_lookup_ne. Qed.

Lemma onlyWrites_alter this f w :
  onlyWrites this w (World.set_instances (alter f this (World.instances w)) w).
Proof. repeat split. intros r Hr. simpl. by rewrite lookup_alter_ne. Qed.

Lemma onlyWrites_same this w w' :
  World.instances w' = World.instances w →
  World.groupLayouts w' = World.groupLayouts w →
  World.groupKeys w' = World.groupKeys w →
  World.groupIndex w' = World.groupIndex w →
  onlyWrites this w w'.
Proof. intros Hi Hg Hk Hn. repeat split; try done. intros r _. by rewrite Hi. Qed.

Ltac writes_step :=
  first
    [ apply respects_modify; intros ?; apply onlyWrites_withState
    | apply respects_modify; intros ?; apply onlyWrites_alter
    | apply respects_modify; intros ?; apply onlyWrites_same; reflexivity
    | respects_step ].

Ltac writes_method := unfold setState, inPlace, call; repeat writes_step.

Section OwnInstance.
Context `{!utils.Imports, !constants.Constants}.

Lemma onlyWrites_onDrop this dragItem itemType :
  respects (onlyWrites this) (onDrop this dragItem itemType).
Proof. unfold onDrop, onLayoutMaybeChanged, resetDraggingState. writes_method. Qed.

Lemma resetDraggingState_fields this id w a w' :
  resetDraggingState this id w = Return a w' →
  World.hoveredGroups w' = [] ∧
  ∃ inst',
    World.instances w' !! this = Some inst' ∧
    State.draggingItem (Layout.state inst') = None ∧
    State.prevPosition (Layout.state inst') = None ∧
    State.oldLayouts (Layout.state inst') = None.
Proof.
  intros Hrun. split; [by eapply resetDraggingState_hoveredGroups|].
  destruct (World.instances w !! this) as [inst|] eqn:Hinst.
  - rewrite (resetDraggingState_run _ _ _ _ Hinst) in Hrun.
    injection Hrun as _ <-. unfold withState. simpl.
    destruct (findIndex _ id); simpl; rewrite !lookup_alter_eq, Hinst; simpl; eauto.
  - revert Hrun. unfold resetDraggingState, mbind, M_bind, getInstance.
    by rewrite Hinst.
Qed.

Lemma onDrop_fields this dragItem itemType w a w' :
  onDrop this dragItem itemType w = Return a w' →
  ∃ inst',
    World.instances w' !! this = Some inst' ∧
    State.draggingItem (Layout.state inst') = None ∧
    State.prevPosition (Layout.state inst') = None ∧
    State.oldLayouts (Layout.state inst') = None.
Proof.
  unfold onDrop. unfold mbind, M_bind. intros Hrun.
  repeat match type of Hrun with
         | context [match ?x with _ => _ end] => destruct x eqn:?; try done
         end.
  all: match goal with
       | Hreset : resetDraggingState _ _ _ = Return _ ?w3 |- _ =>
           apply resetDraggingState_fields in Hreset as [_ Hreset]
       end.
  all: repeat match goal with
         | Hget : getInstance _ _ = Return _ _ |- _ =>
             apply getInstance_inv in Hget as [-> _]
         end.
  all: unfold call, modify, mret, M_ret in Hrun; by simplify_eq/=.
Qed.

End OwnInstance.

(** ** A tick over a new cell *)

Section TickFacts.
Context `{!utils.Imports, !constants.Constants}.

Lemma moveItem_new_cell_run this k offset w inst dom parentOffset l :
  World.instances w !! this = Some inst →
  Layout.containerRef inst = Some dom →
  State.offset (Layout.state inst) = Some parentOffset →
  State.layouts (Layout.state inst) !! k = Some l →
  let position :=
    utils.calcXY (getPositionParams inst)
      (Coord.y offset - Coord.y parentOffset + Dom.parentScrollTop dom)
      (Coord.x offset - Coord.x parentOffset + Dom.parentScrollLeft dom)
      (Item.w l) (Item.h l) in
  State.prevPosition (Layout.state inst) ≠ Some position →
  let marked := Item.set_placeholder (Some true) l in
  let props := Layout.props inst in
  let moved :=
    utils.compact
      (utils.moveElement (<[k := marked]> (State.layouts (Layout.state inst))) marked
         (Coord.x position) (Coord.y position) true (Props.preventCollision props)
         (Props.compactType props) (Props.cols props))
      (Props.compactType props) (Props.cols props) in
  ∃ w',
    moveItem this k offset w = Return () w' ∧
    World.instances w' !! this =
      Some (Layout.set_state
              (State.set_draggingItem (Some marked)
                 (State.set_prevPosition (Some position)
                    (State.set_layouts moved (Layout.state inst)))) inst) ∧
    World.calls w' = World.calls w ∧
    World.hoveredGroups w' = World.hoveredGroups w.
Proof.
  intros Hinst Hdom Hoff Hk position Hprev marked props moved.
  unfold moveItem. mrun.
  rewrite (getInstance_run _ _ _ Hinst), Hdom, Hk.
  rewrite (calcXY_run _ _ _ _ _ _ _ Hinst Hdom Hoff). fold position.
  rewrite bool_decide_eq_false_2 by done.
  eexists. split; [reflexivity|]. unfold withState. simpl.
  by rewrite !lookup_alter_eq, Hinst.
Qed.

End TickFacts.

(** ** Props that come again *)

Section PropsFacts.
Context `{!utils.Imports}.

Lemma deriveState_stable w props st :
  State.layouts st =
    utils.reLayout (Props.layouts props) (Props.compactType props) (Props.cols props) →
  deriveState w props st = st.
Proof.
  intros Hl. unfold deriveState, getDerivedStateFromProps.
  destruct (_ || _); [done|].
  destruct (negb _); [|done]. rewrite <- Hl. by destruct st.
Qed.

Lemma deriveState_twice w w' props st :
  World.hoveredGroups w' = World.hoveredGroups w →
  deriveState w' props (deriveState w props st) = deriveState w props st.
Proof.
  intros Hh.
  destruct (bool_decide (World.hoveredGroups w ≠ [])
            || bool_decide (is_Some (State.placeholder st))) eqn:Hbusy.
  - assert (deriveState w props st = st) as ->
      by (unfold deriveState, getDerivedStateFromProps; by rewrite Hbusy).
    unfold deriveState, getDerivedStateFromProps. by rewrite Hh, Hbusy.
  - destruct (negb (utils.isEqual (Props.layouts props) (State.layouts st))) eqn:Hne.
    + assert (deriveState w props st =
              State.set_layouts
                (utils.reLayout (Props.layouts props) (Props.compactType props)
                   (Props.cols props)) st) as ->
        by (unfold deriveState, getDerivedStateFromProps; by rewrite Hbusy, Hne).
      by apply deriveState_stable.
    + assert (deriveState w props st = st) as ->
        by (unfold deriveState, getDerivedStateFromProps; by rewrite Hbusy, Hne).
      unfold deriveState, getDerivedStateFromProps. by rewrite Hh, Hbusy, Hne.
Qed.

Lemma set_instances_same w : World.set_instances (World.instances w) w = w.
Proof. by destruct w. Qed.

End PropsFacts.

(** * Further properties of the component *)

Section Coverage.
Context `{!utils.Imports, !constants.Constants}.

#[local] Existing Instance staysRegistered_preorder.

(** X1.  The registry stays consistent through everything that happens to
    the instances: when every name of [groupLayouts] leads to an instance of
    that group, it still does after any sequence of constructions,
    mountings, unmountings, drags, drops, resizes and changes of props. *)
Theorem registry_stays_consistent actions w w' :
  registered w → performAll actions w = Return () w' → registered w'.
Proof.
  intros Hreg Hrun. revert Hreg.
  apply (invariant_performAll (R := staysRegistered)) in Hrun; [done|..];
    unfold staysRegistered; try done.
  - intros r f w0 Hf. apply registered_alter. intros inst. apply Hf.
  - intros g w0 Hreg0 g' r Hg. simpl in *.
    apply lookup_delete_Some in Hg as [_ Hg]. by apply Hreg0.
  - intros props w0 this w1. apply registered_constructor.
Qed.


(** X3.  A drag that starts with [onDragStart], goes through any number of
    ticks ([moveItem], [removeHoverdGroupItem] and [onResize], on this
    instance or on others) and ends without a drop leaves the layout the
    instance had when the drag started: the same items in the same order,
    equal but for the placeholder mark of the dragged item, and the layout
    itself when that item bore no mark.  The snapshot, the dragged item and
    the hover marks are cleared. *)
Theorem cancelled_drag_restores_start this item itemType ticks w0 w1 w2 inst0 :
  World.instances w0 !! this = Some inst0 →
  onDragStart this w0 = Return () w1 →
  Forall (λ e, isTick e = true) ticks →
  run ticks w1 = Return () w2 →
  itemType = Layout.group inst0 ∨ is_Some (World.groupLayouts w2 !! itemType) →
  let start := State.layouts (Layout.state inst0) in
  ∃ w3 inst3,
    onDragEnd this item false itemType w2 = Return () w3 ∧
    World.instances w3 !! this = Some inst3 ∧
    Item.set_placeholder None <$> State.layouts (Layout.state inst3)
      = Item.set_placeholder None <$> start ∧
    Item.geometry <$> State.layouts (Layout.state inst3) = Item.geometry <$> start ∧
    ((∀ l, getLayoutItem start (Item.i item) = Some l → Item.placeholder l = None) →
     State.layouts (Layout.state inst3) = start) ∧
    State.oldLayouts (Layout.state inst3) = None ∧
    State.draggingItem (Layout.state inst3) = None ∧
    World.hoveredGroups w3 = [].
Proof.
  intros Hinst Hstart Hticks Hrun Hgroup start.
  assert (∃ inst1, World.instances w1 !! this = Some inst1 ∧
                   snapshotOf inst1 = (Layout.group inst0, Some start))
    as (inst1 & Hinst1 & Hsnap1).
  { revert Hstart. unfold onDragStart. mrun.
    rewrite (getInstance_run _ _ _ Hinst). intros [= <-].
    eexists. split; [by apply withState_lookup_eq|].
    unfold snapshotOf. simpl. by rewrite cloneLayouts_same. }
  destruct (keeps_snapshot_ticks ticks Hticks _ _ _ Hrun _ _ Hinst1)
    as (inst2 & Hinst2 & Hsnap2).
  rewrite Hsnap1 in Hsnap2. injection Hsnap2 as Hgroup2 Hold2.
  destruct (onDragEnd_cancel_run this item itemType w2 inst2 start Hinst2 Hold2)
    as (w3 & inst3 & Hend & Hinst3 & Hlayouts & Hdrag & _ & Hold & Hhover).
  { by rewrite Hgroup2. }
  exists w3, inst3. split; [done|]. split; [done|]. rewrite Hlayouts.
  split; [|split; [|split]]; [..|done].
  - destruct (findIndex start (Item.i item)); [|done]. by apply fmap_alter_absorb.
  - destruct (findIndex start (Item.i item)); [|done].
    apply fmap_alter_absorb. by intros [].
  - intros Hflag. destruct (findIndex start (Item.i item)) as [k|] eqn:Hk; [|done].
    apply alter_id_on. intros l Hl.
    destruct (findIndex_Some _ _ _ Hk) as (l' & Hl' & _ & Hget).
    assert (l' = l) as -> by congruence.
    specialize (Hflag _ Hget). destruct l; simpl in *; by subst.
Qed.


(** X5.  Apart from the constructor, [componentWillUnmount] and
    [removeHoverdGroupItem], whatever is asked of an instance leaves every
    other instance as it is, and the registry, the keys and the counter of
    the module as well: a drop, the end of a drag, a resize or a mounting
    writes to the state of its own instance alone. *)
Theorem methods_write_their_own_instance a this w w' :
  target a = Some this →
  perform a w = Return () w' →
  (∀ r, r ≠ this → World.instances w' !! r = World.instances w !! r) ∧
  World.groupLayouts w' = World.groupLayouts w ∧
  World.groupKeys w' = World.groupKeys w ∧
  World.groupIndex w' = World.groupIndex w.
Proof.
  intros Ht Hrun.
  cut (respects (onlyWrites this) (perform a));
    [intros Hwrites; exact (Hwrites w () w' Hrun)|].
  clear Hrun. destruct a as [[]| | | | |]; simpl in *; try discriminate;
    injection Ht as <-.
  - unfold moveItem, calcXY. writes_method.
  - apply onlyWrites_onDrop.
  - unfold onDragStart. writes_method.
  - unfold onDragEnd, isGroupItem, resetDraggingState. writes_method.
  - unfold onCardItemDragEnd.
    repeat first [apply onlyWrites_onDrop | progress writes_method].
  - unfold onResize. writes_method.
  - unfold onResizeStop, onLayoutMaybeChanged. writes_method.
  - unfold componentDidMount, initStates, onLayoutMaybeChanged, emitMounted.
    writes_method.
  - unfold initStates. writes_method.
  - unfold resize. writes_method.
  - unfold attachRef. writes_method.
  - unfold receiveProps. writes_method.
Qed.


(** X7.  A nested layout is measured by a timer, after it has mounted.
    Until the timer fires its offset is [null]: [calcXY] throws, and
    [moveItem] with it, for every item of the layout and every position of
    the pointer.  Once [initStates] has run, [moveItem] returns. *)
Theorem nested_layout_throws_until_measured props w0 this w1 containerDOM w2 w3
    k l offset :
  constructor props w0 = Return this w1 →
  attachRef this (Some containerDOM) w1 = Return () w2 →
  componentDidMount this true w2 = Return () w3 →
  utils.reLayout (Props.layouts props) (Props.compactType props) (Props.cols props) !! k
    = Some l →
  calcXY this l offset w3 = Throw TypeError ∧
  moveItem this k offset w3 = Throw TypeError ∧
  ∃ w4 w5,
    initStates this (Some containerDOM) w3 = Return () w4 ∧
    moveItem this k offset w4 = Return () w5.
Proof.
  intros Hc Href Hmount Hk.
  destruct (constructor_state _ _ _ _ Hc)
    as (_ & _ & _ & _ & _ & _ & n & Hr & _).
  revert Href. unfold attachRef, mbind, M_bind, modify.
  rewrite (getInstance_run _ _ _ Hr). intros [= <-].
  match type of Hmount with componentDidMount _ _ ?w = _ =>
    assert (∃ inst2, World.instances w !! this = Some inst2 ∧
                     Layout.containerRef inst2 = Some containerDOM ∧
                     State.offset (Layout.state inst2) = None ∧
                     State.layouts (Layout.state inst2) !! k = Some l)
      as (inst2 & Hr2 & Href2 & Hoff2 & Hk2)
      by (simpl; rewrite lookup_alter_eq, Hr; simpl; eauto)
  end.
  destruct (componentDidMount_run this true _ inst2 Hr2)
    as (w3' & Hmount' & Hr3 & _).
  rewrite Hmount' in Hmount. injection Hmount as ->.
  unfold measured in Hr3. simpl in Hr3.
  assert (calcXY this l offset w3 = Throw TypeError) as Hcalc.
  { unfold calcXY, mbind, M_bind.
    by rewrite (getInstance_run _ _ _ Hr3); simpl; rewrite Href2, Hoff2. }
  split; [done|]. split.
  - unfold moveItem. unfold mbind, M_bind at 1.
    rewrite (getInstance_run _ _ _ Hr3). simpl. rewrite Href2, Hk2.
    unfold mbind, M_bind. by rewrite Hcalc.
  - eexists. unfold initStates, setState, modify.
    pose proof (withState_lookup_eq this
      (set_measures (Dom.boundingClientRect containerDOM) (Dom.offsetWidth containerDOM))
      w3 _ Hr3) as Hr4.
    set (w4 := withState this _ w3) in *.
    assert (∃ w5, moveItem this k offset w4 = Return () w5) as [w5 Hmove].
    { unfold moveItem. unfold mbind, M_bind at 1.
      rewrite (getInstance_run _ _ _ Hr4). simpl. rewrite Href2, Hk2.
      unfold mbind, M_bind at 1.
      erewrite calcXY_run; [|exact Hr4|exact Href2|reflexivity].
      unfold mbind, M_bind, inPlace, setState, modify.
      case_bool_decide; eauto. }
    exists w5. split; [reflexivity | exact Hmove].
Qed.

(** X8.  When an instance mounts, the host is told of the layout the
    constructor has normalized exactly when [reLayout] has changed the
    layout of the props, and then once, with the normalized layout.  The
    offset and the width are measured on the container at that moment,
    unless the layout is nested or has no container: then they stay [null]
    and 0. *)
Theorem mount_reports_normalized_layout props w0 this w1 current w2 nested :
  constructor props w0 = Return this w1 →
  attachRef this current w1 = Return () w2 →
  let normalized :=
    utils.reLayout (Props.layouts props) (Props.compactType props) (Props.cols props) in
  ∃ w3 inst,
    componentDidMount this nested w2 = Return () w3 ∧
    World.instances w3 !! this = Some inst ∧
    State.layouts (Layout.state inst) = normalized ∧
    World.calls w3 =
      World.calls w0
      ++ (if utils.isEqual (Props.layouts props) normalized then []
          else if Props.onLayoutChange props then [CallLayoutChange this normalized]
          else []) ∧
    (State.offset (Layout.state inst), State.containerWidth (Layout.state inst)) =
      match nested, current with
      | false, Some containerDOM =>
          (Some (Dom.boundingClientRect containerDOM), Dom.offsetWidth containerDOM)
      | _, _ => (None, 0)
      end.
Proof.
  intros Hc Href normalized.
  destruct (constructor_state _ _ _ _ Hc)
    as (_ & _ & _ & _ & Hcalls & _ & n & Hr & _).
  revert Href. unfold attachRef, mbind, M_bind, modify.
  rewrite (getInstance_run _ _ _ Hr). intros [= <-].
  match goal with |- context [componentDidMount this nested ?w] =>
    destruct (componentDidMount_run this nested w
                (Layout.mk (Layout.group (Layout.mk
                   (if decide (Props.group props = "")
                    then defaultGroupName (World.groupIndex w0) else Props.group props)
                   props
                   (State.mk None (World.groupKeys w1) normalized None 0 None None None)
                   None n)) props
                   (State.mk None (World.groupKeys w1) normalized None 0 None None None)
                   current n))
      as (w3 & Hrun & Hthis & _ & Hcalls3 & _)
  end.
  { simpl. by rewrite lookup_alter_eq, Hr. }
  exists w3. eexists. split; [exact Hrun|]. split; [exact Hthis|]. simpl.
  split; [done|]. split.
  - rewrite Hcalls3. simpl. rewrite Hcalls. f_equal.
    unfold layoutChangeCalls. fold normalized.
    by destruct (utils.isEqual _ _), (Props.onLayoutChange props).
  - unfold measured. simpl. by destruct nested, current.
Qed.

(** X9.  A layout constructed with a group prop that does not hold
    [DEFAULT_GROUP] has no listener of its ['mounted'] event, and never gets
    one: whatever happens afterwards, its mounting included, it accepts the
    [groupKeys] of the moment of its construction, and so none of the groups
    constructed later. *)
Theorem named_layout_accept_is_fixed props w0 this w1 actions w2 :
  Props.group props ≠ "" →
  String.index 0 constants.DEFAULT_GROUP (Props.group props) = None →
  constructor props w0 = Return this w1 →
  performAll actions w1 = Return () w2 →
  ∃ inst,
    World.instances w2 !! this = Some inst ∧
    State.accept (Layout.state inst) = World.groupKeys w1 ∧
    Layout.mountedListeners inst = 0%nat.
Proof.
  intros Hg Hindex Hc Hrun.
  destruct (constructor_state _ _ _ _ Hc)
    as (_ & _ & _ & _ & _ & _ & n & Hr & _ & Hn).
  rewrite (Hn Hg) in Hr. rewrite decide_False in Hr by done.
  destruct (keeps_accept_performAll actions _ _ _ Hrun _ _ Hr) as (inst & Hr2 & Heq).
  exists inst. split; [done|].
  revert Heq. unfold acceptOf, usesDefaultGroup. simpl. intros [= Hgroup Hrest].
  rewrite Hgroup in Hrest.
  rewrite !bool_decide_eq_false_2 in Hrest by (rewrite Hindex; by intros [? ?]).
  injection Hrest as Hlisteners Haccept. rewrite Hlisteners in Haccept.
  by injection Haccept.
Qed.

(** X10.  A layout constructed without a group prop listens to its own
    ['mounted'] event: whatever happens between its construction and its
    mounting, when it mounts it accepts the [groupKeys] of that moment, the
    groups constructed after it included. *)
Theorem default_group_layout_accepts_on_mount props w0 this w1 actions w2 nested :
  Props.group props = "" →
  constructor props w0 = Return this w1 →
  performAll actions w1 = Return () w2 →
  ∃ w3 inst,
    componentDidMount this nested w2 = Return () w3 ∧
    World.instances w3 !! this = Some inst ∧
    State.accept (Layout.state inst) = World.groupKeys w2 ∧
    World.groupKeys w3 = World.groupKeys w2.
Proof.
  intros Hg Hc Hrun.
  destruct (constructor_state _ _ _ _ Hc)
    as (_ & _ & _ & _ & _ & _ & n & Hr & Hn & _).
  specialize (Hn Hg).
  destruct (listenersGrow_performAll actions _ _ _ Hrun _ _ Hr)
    as (inst2 & Hr2 & _ & Hn2). simpl in Hn2.
  destruct (componentDidMount_run this nested w2 inst2 Hr2)
    as (w3 & Hmount & Hthis & _ & _ & _ & Hkeys & _).
  exists w3. eexists. split; [exact Hmount|]. split; [exact Hthis|]. simpl.
  split; [|done].
  destruct (Layout.mountedListeners inst2); [lia | done].
Qed.

(** X11.  A resize holds the props off: [onResize] puts the placeholder, a
    static item with the identifier of the resized item and the rectangle
    [withLayoutItem] has given it, and as long as it is there
    [getDerivedStateFromProps] gives [null] for every props; [onResizeStop]
    takes the placeholder and the snapshot away and leaves the layout as
    [onResize] has set it.  When [withLayoutItem] finds no item, [onResize]
    changes nothing. *)
Theorem resize_holds_the_props_off this item w h wd inst :
  World.instances wd !! this = Some inst →
  let layouts := State.layouts (Layout.state inst) in
  let props := Layout.props inst in
  let found :=
    utils.withLayoutItem layouts (Item.i item)
      (onResizeItem layouts (Props.preventCollision props) w h) in
  (found.2 = None → onResize this item w h wd = Return () wd) ∧
  (∀ l, found.2 = Some l →
     ∃ wd1 inst1,
       onResize this item w h wd = Return () wd1 ∧
       World.instances wd1 !! this = Some inst1 ∧
       State.placeholder (Layout.state inst1) =
         Some (Item.fixed (Item.i item) (Item.x l) (Item.y l) (Item.w l) (Item.h l)) ∧
       State.layouts (Layout.state inst1) =
         utils.compact found.1 (Props.compactType props) (Props.cols props) ∧
       State.oldLayouts (Layout.state inst1) = State.oldLayouts (Layout.state inst) ∧
       (∀ props', getDerivedStateFromProps wd1 props' (Layout.state inst1) = None) ∧
       ∃ wd2 inst2,
         onResizeStop this wd1 = Return () wd2 ∧
         World.instances wd2 !! this = Some inst2 ∧
         State.placeholder (Layout.state inst2) = None ∧
         State.oldLayouts (Layout.state inst2) = None ∧
         State.layouts (Layout.state inst2) = State.layouts (Layout.state inst1)).
Proof.
  intros Hinst layouts props found. split.
  - intros Hnone. unfold onResize, mbind, M_bind.
    rewrite (getInstance_run _ _ _ Hinst). fold layouts props found.
    destruct found as [newLayouts o]. simpl in Hnone. by subst o.
  - intros l Hsome.
    assert (found = (found.1, Some l)) as Hfound
      by (destruct found; simpl in *; by subst).
    rewrite (onResize_run this item w h wd inst found.1 l Hinst Hfound).
    set (wd1 := withState this _ wd).
    set (inst1 :=
      Layout.set_state
        (State.set_placeholder
           (Some (Item.fixed (Item.i item) (Item.x l) (Item.y l) (Item.w l) (Item.h l)))
           (State.set_layouts
              (utils.compact found.1 (Props.compactType props) (Props.cols props))
              (Layout.state inst))) inst).
    assert (World.instances wd1 !! this = Some inst1) as Hinst1
      by (by apply withState_lookup_eq).
    exists wd1, inst1. split; [done|]. split; [done|].
    split; [done|]. split; [done|]. split; [done|]. split.
    + intros props'. apply deriveState_busy. right. by eexists.
    + destruct (onResizeStop_run this wd1 inst1 Hinst1)
        as (wd2 & inst2 & Hstop & Hinst2 & Hp2 & Ho2 & _).
      assert (respects (keeps (λ i, State.layouts (Layout.state i))) (onResizeStop this))
        as Hkeeps by (unfold onResizeStop, onLayoutMaybeChanged; keeps_method).
      destruct (Hkeeps _ _ _ Hstop _ _ Hinst1) as (inst2' & Hinst2' & Hl2).
      assert (inst2' = inst2) as -> by congruence.
      by exists wd2, inst2.
Qed.

(** X12.  The function [onResize] applies to the resized item changes its
    width and its height and nothing else.  With collisions allowed they
    are the ones asked for; in every case a width and a height that are at
    least one stay at least one: where the item is cut down to the nearest
    colliding item beyond it, that item lies at least one cell further. *)
Theorem onResizeItem_changes_the_size_alone layouts preventCollision w h l :
  let r := onResizeItem layouts preventCollision w h l in
  Item.set_h (Item.h l) (Item.set_w (Item.w l) r) = l ∧
  (preventCollision = false → Item.w r = w ∧ Item.h r = h) ∧
  (1 ≤ w → 1 ≤ Item.w l → 1 ≤ Item.w r) ∧
  (1 ≤ h → 1 ≤ Item.h l → 1 ≤ Item.h r).
Proof.
  intros r. unfold r, onResizeItem.
  destruct preventCollision; [|by destruct l].
  destruct (bool_decide _); [|by destruct l].
  set (collisions := resizeCollisions layouts l w h).
  pose proof (least_Some Item.x (Item.x l) collisions) as Hx.
  pose proof (least_Some Item.y (Item.y l) collisions) as Hy.
  destruct (least Item.x (Item.x l) collisions) as [vx|],
           (least Item.y (Item.y l) collisions) as [vy|]; simpl.
  all: repeat match goal with
         | H : ∀ m, Some ?v = Some m ↔ _ |- _ =>
             destruct (proj1 (H v) eq_refl) as [(? & _ & ? & ?) _]; clear H
         | H : ∀ m, None = Some m ↔ _ |- _ => clear H
         end.
  all: split; [by destruct l|]; split; [done|]; split; intros; lia.
Qed.



(** X15.  The listener of the window's [resize] brings [containerWidth] to
    the width of the container and changes nothing else: called again it
    changes nothing, and without a container it changes nothing at all.
    The cell [calcXY] computes does not depend on it: the position
    parameters take the width from the container itself. *)
Theorem resize_tracks_the_container this w inst :
  World.instances w !! this = Some inst →
  ∃ w' inst',
    resize this w = Return () w' ∧
    World.instances w' !! this = Some inst' ∧
    State.containerWidth (Layout.state inst') =
      match Layout.containerRef inst with
      | Some containerDOM => Dom.offsetWidth containerDOM
      | None => State.containerWidth (Layout.state inst)
      end ∧
    inst' = Layout.set_state
              (set_containerWidth (State.containerWidth (Layout.state inst'))
                 (Layout.state inst)) inst ∧
    resize this w' = Return () w' ∧
    getPositionParams inst' = getPositionParams inst ∧
    (∀ item offset position,
       calcXY this item offset w = Return position w →
       calcXY this item offset w' = Return position w').
Proof.
  intros Hinst.
  set (width := match Layout.containerRef inst with
                | Some containerDOM => Dom.offsetWidth containerDOM
                | None => State.containerWidth (Layout.state inst)
                end).
  set (inst' := Layout.set_state (set_containerWidth width (Layout.state inst)) inst).
  assert (∃ w', resize this w = Return () w' ∧ World.instances w' !! this = Some inst')
    as (w' & Hrun & Hinst').
  { unfold resize, mbind, M_bind. rewrite (getInstance_run _ _ _ Hinst).
    unfold inst', width.
    destruct (Layout.containerRef inst) as [containerDOM|].
    - case_bool_decide as Hw.
      + eexists. split; [reflexivity|]. by apply withState_lookup_eq.
      + exists w. split; [done|]. rewrite Hinst. f_equal.
        rewrite Hw. by destruct inst as [? ? [] ? ?].
    - exists w. split; [done|]. rewrite Hinst. f_equal.
      by destruct inst as [? ? [] ? ?]. }
  exists w', inst'. split; [done|]. split; [done|]. split; [done|]. split; [done|].
  split; [|split].
  - unfold resize, mbind, M_bind. rewrite (getInstance_run _ _ _ Hinst').
    unfold inst', width. simpl.
    destruct (Layout.containerRef inst); [|done].
    by rewrite bool_decide_eq_false_2 by (by intros ?).
  - done.
  - intros item offset position. unfold calcXY, mbind, M_bind.
    rewrite (getInstance_run _ _ _ Hinst), (getInstance_run _ _ _ Hinst').
    change (getPositionParams inst') with (getPositionParams inst).
    unfold inst'. simpl.
    destruct (Layout.containerRef inst), (State.offset (Layout.state inst));
      try done.
    unfold mret, M_ret. by intros [= ->].
Qed.

(** X16.  [removeHoverdGroupItem] leaves at most the current group marked
    hovered, so that calling it again changes nothing: on the ticks of a
    hover that follow the first one over a group, nothing is released
    twice. *)
Theorem removeHoverdGroupItem_idempotent this layoutItem w w1 :
  removeHoverdGroupItem this layoutItem w = Return () w1 →
  (length (World.hoveredGroups w1) ≤ 1)%nat ∧
  (∀ layoutItem', removeHoverdGroupItem this layoutItem' w1 = Return () w1).
Proof.
  intros Hrun.
  assert (is_Some (World.instances w1 !! this)) as [inst1 Hinst1].
  { destruct (World.instances w !! this) as [inst|] eqn:Hinst.
    - assert (respects (keeps Layout.group) (removeHoverdGroupItem this layoutItem))
        as Hkeeps
        by (unfold removeHoverdGroupItem, removeOtherGroupItem; keeps_method).
      destruct (Hkeeps _ _ _ Hrun _ _ Hinst) as (inst1 & ? & _). eauto.
    - revert Hrun. unfold removeHoverdGroupItem, mbind, M_bind, getInstance.
      by rewrite Hinst. }
  assert (length (World.hoveredGroups w1) ≤ 1)%nat as Hlen.
  { revert Hrun. unfold removeHoverdGroupItem, mbind, M_bind, get.
    destruct (getInstance this w) as [inst w0|] eqn:Hget; [|done].
    apply getInstance_inv in Hget as [-> _].
    case_bool_decide as Hmany.
    - destruct (forEach _ _ w); [|done]. by intros [= <-].
    - intros [= <-]. lia. }
  split; [done|]. intros layoutItem'.
  unfold removeHoverdGroupItem, mbind, M_bind, get.
  rewrite (getInstance_run _ _ _ Hinst1).
  rewrite bool_decide_eq_false_2; [done | lia].
Qed.

(** X17.  Whenever [onDrop] returns, whatever was dropped, the interaction
    is over for the instance: no item is recorded as dragged, no cell and
    no snapshot are kept, and no group is marked hovered. *)
Theorem drop_ends_the_interaction this dragItem itemType w w' :
  onDrop this dragItem itemType w = Return () w' →
  World.hoveredGroups w' = [] ∧
  ∃ inst',
    World.instances w' !! this = Some inst' ∧
    State.draggingItem (Layout.state inst') = None ∧
    State.prevPosition (Layout.state inst') = None ∧
    State.oldLayouts (Layout.state inst') = None.
Proof.
  intros Hrun. split; [by eapply onDrop_hoveredGroups | by eapply onDrop_fields].
Qed.

(** X18.  The drag of a card that ends on no layout leaves the hover marks
    as they are, and as long as a group is marked hovered
    [getDerivedStateFromProps] gives [null]: after such an end, whatever
    props React hands to whatever instance, its state stays as it is. *)
Theorem cancelled_card_drag_holds_the_props_off this item itemType w inst snap
    draggingItem index :
  World.instances w !! this = Some inst →
  State.oldLayouts (Layout.state inst) = Some snap →
  State.draggingItem (Layout.state inst) = Some draggingItem →
  findIndex (State.layouts (Layout.state inst)) (Item.i draggingItem) = Some index →
  World.hoveredGroups w ≠ [] →
  ∃ w',
    onCardItemDragEnd this item false itemType w = Return () w' ∧
    World.hoveredGroups w' = World.hoveredGroups w ∧
    (∀ props state, getDerivedStateFromProps w' props state = None) ∧
    (∀ r props layout,
       World.instances w' !! r = Some layout →
       ∃ w'' layout',
         receiveProps r props w' = Return () w'' ∧
         World.instances w'' !! r = Some layout' ∧
         Layout.state layout' = Layout.state layout).
Proof.
  intros Hinst Hsnap Hdrag Hidx Hhover.
  destruct (onCardItemDragEnd_cancel_run this item itemType w inst snap draggingItem
              index Hinst Hsnap Hdrag Hidx)
    as (w' & inst' & Hrun & _ & _ & _ & _ & _ & Hsame).
  exists w'. split; [done|]. split; [done|].
  assert (∀ props state, getDerivedStateFromProps w' props state = None
                         ∧ deriveState w' props state = state) as Hbusy.
  { intros props state. apply deriveState_busy. left. by rewrite Hsame. }
  split; [intros props state; apply Hbusy|].
  intros r props layout Hr. unfold receiveProps, mbind, M_bind, modify.
  rewrite (getInstance_run _ _ _ Hr).
  eexists _, _. split; [reflexivity|]. simpl.
  rewrite lookup_alter_eq, Hr. simpl. split; [reflexivity|]. simpl.
  apply Hbusy.
Qed.

(** X19.  A tick of the hover over a new cell followed by a drop of the
    item on its own layout.  [moveItem] records the marked item and the
    cell, and sets the layout [compact] makes of what [moveElement] gives.
    If that layout still holds an item with the identifier of the dragged
    one, [onDrop] returns: the layout is committed with the mark taken off
    that item, the change is reported against the snapshot, the host's
    [onDrop] gets the item, and the interaction is over.  If it does not,
    [onDrop] throws. *)
Theorem tick_then_drop_commits_the_move this k offset dragItem w inst dom parentOffset
    l :
  World.instances w !! this = Some inst →
  Layout.containerRef inst = Some dom →
  State.offset (Layout.state inst) = Some parentOffset →
  State.layouts (Layout.state inst) !! k = Some l →
  let position :=
    utils.calcXY (getPositionParams inst)
      (Coord.y offset - Coord.y parentOffset + Dom.parentScrollTop dom)
      (Coord.x offset - Coord.x parentOffset + Dom.parentScrollLeft dom)
      (Item.w l) (Item.h l) in
  State.prevPosition (Layout.state inst) ≠ Some position →
  let marked := Item.set_placeholder (Some true) l in
  let props := Layout.props inst in
  let moved :=
    utils.compact
      (utils.moveElement (<[k := marked]> (State.layouts (Layout.state inst))) marked
         (Coord.x position) (Coord.y position) true (Props.preventCollision props)
         (Props.compactType props) (Props.cols props))
      (Props.compactType props) (Props.cols props) in
  ∃ w1 inst1,
    moveItem this k offset w = Return () w1 ∧
    World.instances w1 !! this = Some inst1 ∧
    State.layouts (Layout.state inst1) = moved ∧
    State.draggingItem (Layout.state inst1) = Some marked ∧
    State.prevPosition (Layout.state inst1) = Some position ∧
    State.oldLayouts (Layout.state inst1) = State.oldLayouts (Layout.state inst) ∧
    (Item.i l ∉ Item.i <$> moved →
     ∀ itemType, onDrop this dragItem itemType w1 = Throw TypeError) ∧
    (Item.i l ∈ Item.i <$> moved →
     ∃ index l1 w2 inst2,
       findIndex moved (Item.i l) = Some index ∧
       moved !! index = Some l1 ∧
       onDrop this dragItem (Layout.group inst) w1 = Return () w2 ∧
       World.instances w2 !! this = Some inst2 ∧
       State.layouts (Layout.state inst2) = <[index := Item.set_placeholder None l1]> moved ∧
       State.draggingItem (Layout.state inst2) = None ∧
       State.oldLayouts (Layout.state inst2) = None ∧
       World.hoveredGroups w2 = [] ∧
       World.calls w2 =
         World.calls w
         ++ layoutChangeCalls
              (utils.isEqual
                 (default (<[index := Item.set_placeholder None l1]> moved)
                    (State.oldLayouts (Layout.state inst)))
                 (<[index := Item.set_placeholder None l1]> moved))
              (Props.onLayoutChange props) this
              (<[index := Item.set_placeholder None l1]> moved)
         ++ (if Props.onDrop props
             then [CallDrop this (<[index := Item.set_placeholder None l1]> moved)
                     (Item.set_placeholder None l1) dragItem (Layout.group inst)
                     (Layout.group inst)]
             else [])).
Proof.
  intros Hinst Hdom Hoff Hk position Hprev marked props moved.
  destruct (moveItem_new_cell_run this k offset w inst dom parentOffset l
              Hinst Hdom Hoff Hk Hprev)
    as (w1 & Hmove & Hinst1 & Hcalls1 & _).
  fold position marked props moved in Hinst1.
  eexists w1, _. split; [exact Hmove|]. split; [exact Hinst1|]. simpl.
  do 4 (split; [done|]). split.
  { intros Hout itemType. apply findIndex_None in Hout.
    by apply (onDrop_absent_run this dragItem itemType w1 _ marked Hinst1). }
  intros Hin.
  destruct (findIndex moved (Item.i l)) as [index|] eqn:Hidx;
    [|by apply findIndex_None in Hidx].
  destruct (findIndex_Some _ _ _ Hidx) as (l1 & Hl1 & _ & _).
  destruct (onDrop_own_group_run this dragItem w1 _ marked index l1 Hinst1)
    as (w2 & inst2 & Hdrop & Hinst2 & Hlayouts & Hold & Hdrag & Hhover & Hcalls);
    [done | done | done |].
  exists index, l1, w2, inst2. simpl in *. rewrite Hcalls1 in Hcalls.
  by repeat (split; [done|]).
Qed.

(** X20.  Props that have been taken in are stable.  The state
    [getDerivedStateFromProps] derives from some props is left as it is when
    it is derived from the same props again, whatever the state of the drag,
    as long as the hover marks are the same; so is the state of the
    constructor, for the props of the construction.  For React's step:
    handing an instance the props it has just been handed, or the props it
    has been constructed with, changes nothing. *)
Theorem props_taken_in_are_stable props w st :
  (∀ w', World.hoveredGroups w' = World.hoveredGroups w →
         deriveState w' props (deriveState w props st) = deriveState w props st) ∧
  (∀ this w1,
     constructor props w = Return this w1 →
     ∃ inst,
       World.instances w1 !! this = Some inst ∧
       (∀ w', deriveState w' props (Layout.state inst) = Layout.state inst) ∧
       receiveProps this props w1 = Return () w1) ∧
  (∀ r w1, receiveProps r props w = Return () w1 →
           receiveProps r props w1 = Return () w1).
Proof.
  split; [|split].
  - intros w'. apply deriveState_twice.
  - intros this w1 Hc.
    destruct (constructor_state _ _ _ _ Hc) as (_ & _ & _ & _ & _ & _ & n & Hr & _).
    eexists. split; [exact Hr|]. split.
    + intros w'. by apply deriveState_stable.
    + unfold receiveProps, mbind, M_bind, modify.
      rewrite (getInstance_run _ _ _ Hr). f_equal.
      transitivity (World.set_instances (World.instances w1) w1);
        [|apply set_instances_same].
      unfold World.set_instances. f_equal.
      apply map_eq. intros r'. destruct (decide (this = r')) as [<- | Hne].
      * rewrite lookup_alter_eq, Hr. simpl. f_equal. f_equal.
        by apply deriveState_stable.
      * by rewrite lookup_alter_ne.
  - intros r w1. unfold receiveProps, mbind, M_bind, modify.
    destruct (getInstance r w) as [inst w0|] eqn:Hget; [|done].
    apply getInstance_inv in Hget as [-> Hinst]. intros [= <-].
    unfold getInstance. simpl. rewrite lookup_alter_eq, Hinst. simpl.
    f_equal. unfold World.set_instances. simpl. f_equal.
    apply map_eq. intros r'. destruct (decide (r = r')) as [<- | Hne].
    + rewrite !lookup_alter_eq, Hinst. simpl. f_equal. f_equal.
      by apply deriveState_twice.
    + by rewrite !lookup_alter_ne.
Qed.

End Coverage.

(** * The further properties at concrete layouts *)

Module CoverageWitnesses.
Import Sample.

Ltac by_evaluation := apply (bool_decide_unpack _); by vm_compute.

(** A layout without a group prop is constructed, rendered and mounted; a
    layout of the group [side] is constructed, a drag starts in the first
    one, and the second one is unmounted. *)
Lemma registry_stays_consistent_witness :
  let actions :=
    [Fire (Construct (props "" [a0])); AttachRef 0 (Some container); DidMount 0 false;
     Fire (Construct (props "side" [b0])); Fire (OnDragStart 0); Fire (WillUnmount 1)] in
  let w' := after (performAll actions) World.initial in
  registered World.initial ∧
  performAll actions World.initial = Return () w' ∧
  registered w' ∧
  World.groupLayouts w' = {[ "default_group_0" := 0%nat ]}.
Proof.
  intros actions w'.
  assert (registered World.initial) as Hreg by by_evaluation.
  assert (performAll actions World.initial = Return () w') as Hrun by (by vm_compute).
  split; [exact Hreg|]. split; [exact Hrun|].
  split; [|by vm_compute].
  exact (registry_stays_consistent actions World.initial w' Hreg Hrun).
Defined.


(** A drag of [a] in the group [g]: it starts, the pointer moves to the cell
    (2, 1), and the drag ends on no layout. *)
Lemma cancelled_drag_restores_start_witness :
  let inst0 := mounted "g" [a0; b0] (idle [a0; b0]) in
  let w0 := world [inst0] [] in
  let w1 := after (onDragStart 0) w0 in
  let ticks := [MoveItem 0 0 (Coord.mk 250 50)] in
  let w2 := after (run ticks) w1 in
  onDragStart 0 w0 = Return () w1 ∧
  run ticks w1 = Return () w2 ∧
  (State.layouts ∘ Layout.state) <$> World.instances w2 !! 0%nat
    = Some [Item.set_placeholder (Some true) (Item.box "a" 2 1 2 1); b0] ∧
  ∃ w3 inst3,
    onDragEnd 0 a0 false "g" w2 = Return () w3 ∧
    World.instances w3 !! 0%nat = Some inst3 ∧
    State.layouts (Layout.state inst3) = [a0; b0].
Proof.
  intros inst0 w0 w1 ticks w2.
  assert (onDragStart 0 w0 = Return () w1) as Hstart by (by vm_compute).
  assert (run ticks w1 = Return () w2) as Hrun by (by vm_compute).
  split; [exact Hstart|]. split; [exact Hrun|]. split; [by vm_compute|].
  destruct (cancelled_drag_restores_start 0 a0 "g" ticks w0 w1 w2 inst0
              eq_refl Hstart)
    as (w3 & inst3 & Hend & Hinst3 & _ & _ & Hsame & _).
  - repeat constructor.
  - exact Hrun.
  - by left.
  - exists w3, inst3. split; [exact Hend|]. split; [exact Hinst3|].
    apply Hsame. intros l Hl. vm_compute in Hl. by injection Hl as <-.
Defined.


(** The drop of [a] on the layout of the group [g3], among three layouts. *)
Lemma methods_write_their_own_instance_witness :
  let a := Fire (OnDrop 2 a0 "g3") in
  let w' := after (perform a) threeGroups in
  perform a threeGroups = Return () w' ∧
  World.instances w' !! 0%nat = World.instances threeGroups !! 0%nat ∧
  World.instances w' !! 1%nat = World.instances threeGroups !! 1%nat ∧
  World.instances w' !! 2%nat ≠ World.instances threeGroups !! 2%nat.
Proof.
  intros a w'.
  assert (perform a threeGroups = Return () w') as Hrun by (by vm_compute).
  split; [exact Hrun|].
  destruct (methods_write_their_own_instance a 2 threeGroups w' eq_refl Hrun)
    as (Hothers & _).
  split; [by apply Hothers|]. split; [by apply Hothers|]. by vm_compute.
Defined.

Lemma drop_ends_the_interaction_witness :
  let w := world [midDrag] ["g"] in
  let w' := after (onDrop 0 a0 "g") w in
  onDrop 0 a0 "g" w = Return () w' ∧
  World.hoveredGroups w' = [] ∧
  (State.oldLayouts ∘ Layout.state) <$> World.instances w' !! 0%nat = Some None.
Proof.
  intros w w'.
  assert (onDrop 0 a0 "g" w = Return () w') as Hrun by (by vm_compute).
  split; [exact Hrun|].
  destruct (drop_ends_the_interaction 0 a0 "g" w w' Hrun)
    as (Hhover & inst' & Hinst' & _ & _ & Hold).
  split; [exact Hhover|]. rewrite Hinst'. simpl. by rewrite Hold.
Defined.


Lemma removeHoverdGroupItem_idempotent_witness :
  let w1 := after (removeHoverdGroupItem 2 a0) threeGroups in
  removeHoverdGroupItem 2 a0 threeGroups = Return () w1 ∧
  World.hoveredGroups w1 = ["g3"] ∧
  removeHoverdGroupItem 2 a0 w1 = Return () w1.
Proof.
  intros w1.
  assert (removeHoverdGroupItem 2 a0 threeGroups = Return () w1) as Hrun
    by (by vm_compute).
  split; [exact Hrun|]. split; [by vm_compute|].
  destruct (removeHoverdGroupItem_idempotent 2 a0 threeGroups w1 Hrun) as [_ Hagain].
  apply Hagain.
Defined.

(** A nested layout that holds [a]. *)
Lemma nested_layout_throws_until_measured_witness :
  let w1 := after (constructor (props "" [a0])) World.initial in
  let w2 := after (attachRef 0 (Some container)) w1 in
  let w3 := after (componentDidMount 0 true) w2 in
  constructor (props "" [a0]) World.initial = Return 0%nat w1 ∧
  attachRef 0 (Some container) w1 = Return () w2 ∧
  componentDidMount 0 true w2 = Return () w3 ∧
  moveItem 0 0 (Coord.mk 250 50) w3 = Throw TypeError ∧
  ∃ w4 w5,
    initStates 0 (Some container) w3 = Return () w4 ∧
    moveItem 0 0 (Coord.mk 250 50) w4 = Return () w5.
Proof.
  intros w1 w2 w3.
  assert (constructor (props "" [a0]) World.initial = Return 0%nat w1) as Hc
    by (by vm_compute).
  assert (attachRef 0 (Some container) w1 = Return () w2) as Href by (by vm_compute).
  assert (componentDidMount 0 true w2 = Return () w3) as Hmount by (by vm_compute).
  split; [exact Hc|]. split; [exact Href|]. split; [exact Hmount|].
  destruct (nested_layout_throws_until_measured (props "" [a0]) World.initial 0 w1
              container w2 w3 0 a0 (Coord.mk 250 50) Hc Href Hmount)
    as (_ & Hthrows & Hlater).
  - by vm_compute.
  - split; [exact Hthrows | exact Hlater].
Defined.

(** The layout of the props holds [a] two rows down: the constructor brings
    it up, and the mounting tells the host. *)
Lemma mount_reports_normalized_layout_witness :
  let p := props "g" [Item.box "a" 0 2 2 1] in
  let w1 := after (constructor p) World.initial in
  let w2 := after (attachRef 0 (Some container)) w1 in
  constructor p World.initial = Return 0%nat w1 ∧
  attachRef 0 (Some container) w1 = Return () w2 ∧
  ∃ w3 inst,
    componentDidMount 0 false w2 = Return () w3 ∧
    World.instances w3 !! 0%nat = Some inst ∧
    World.calls w3 = [CallLayoutChange 0 [a0]] ∧
    State.offset (Layout.state inst) = Some (Coord.mk 0 0) ∧
    State.containerWidth (Layout.state inst) = 1200.
Proof.
  intros p w1 w2.
  assert (constructor p World.initial = Return 0%nat w1) as Hc by (by vm_compute).
  assert (attachRef 0 (Some container) w1 = Return () w2) as Href by (by vm_compute).
  split; [exact Hc|]. split; [exact Href|].
  destruct (mount_reports_normalized_layout p World.initial 0 w1 (Some container) w2
              false Hc Href)
    as (w3 & inst & Hmount & Hinst & _ & Hcalls & Hmeasures).
  exists w3, inst. split; [exact Hmount|]. split; [exact Hinst|].
  split; [exact Hcalls|]. by injection Hmeasures.
Defined.

(** The layout of the group [side] is constructed before the one of the
    group [other], and mounts after it. *)
Lemma named_layout_accept_is_fixed_witness :
  let p := props "side" [] in
  let actions := [Fire (Construct (props "other" [])); DidMount 0 false] in
  let w1 := after (constructor p) World.initial in
  let w2 := after (performAll actions) w1 in
  String.index 0 constants.DEFAULT_GROUP (Props.group p) = None ∧
  constructor p World.initial = Return 0%nat w1 ∧
  performAll actions w1 = Return () w2 ∧
  World.groupLayouts w2 !! "other" = Some 1%nat ∧
  ∃ inst,
    World.instances w2 !! 0%nat = Some inst ∧
    State.accept (Layout.state inst) = ["side"; "card"].
Proof.
  intros p actions w1 w2.
  assert (String.index 0 constants.DEFAULT_GROUP (Props.group p) = None) as Hindex
    by (by vm_compute).
  assert (constructor p World.initial = Return 0%nat w1) as Hc by (by vm_compute).
  assert (performAll actions w1 = Return () w2) as Hrun by (by vm_compute).
  split; [exact Hindex|]. split; [exact Hc|]. split; [exact Hrun|].
  split; [by vm_compute|].
  destruct (named_layout_accept_is_fixed p World.initial 0 w1 actions w2)
    as (inst & Hinst & Haccept & _); [done | exact Hindex | exact Hc | exact Hrun |].
  exists inst. split; [exact Hinst|]. rewrite Haccept. by vm_compute.
Defined.

(** A layout without a group prop is constructed before the one of the group
    [other], and mounts after it. *)
Lemma default_group_layout_accepts_on_mount_witness :
  let p := props "" [] in
  let actions := [Fire (Construct (props "other" []))] in
  let w1 := after (constructor p) World.initial in
  let w2 := after (performAll actions) w1 in
  constructor p World.initial = Return 0%nat w1 ∧
  performAll actions w1 = Return () w2 ∧
  (State.accept ∘ Layout.state) <$> World.instances w2 !! 0%nat
    = Some ["default_group_0"; "card"] ∧
  ∃ w3 inst,
    componentDidMount 0 false w2 = Return () w3 ∧
    World.instances w3 !! 0%nat = Some inst ∧
    "other" ∈ State.accept (Layout.state inst).
Proof.
  intros p actions w1 w2.
  assert (constructor p World.initial = Return 0%nat w1) as Hc by (by vm_compute).
  assert (performAll actions w1 = Return () w2) as Hrun by (by vm_compute).
  split; [exact Hc|]. split; [exact Hrun|]. split; [by vm_compute|].
  destruct (default_group_layout_accepts_on_mount p World.initial 0 w1 actions w2 false
              eq_refl Hc Hrun)
    as (w3 & inst & Hmount & Hinst & Haccept & _).
  exists w3, inst. split; [exact Hmount|]. split; [exact Hinst|].
  rewrite Haccept. by_evaluation.
Defined.

(** The resize of [a] to 3 by 2, collisions allowed. *)
Lemma resize_holds_the_props_off_witness :
  let inst := mounted "g" [a0; b0; c0] (idle [a0; b0; c0]) in
  let wd := world [inst] [] in
  ∃ wd1 inst1,
    onResize 0 a0 3 2 wd = Return () wd1 ∧
    World.instances wd1 !! 0%nat = Some inst1 ∧
    State.placeholder (Layout.state inst1) = Some (Item.fixed "a" 0 0 3 2) ∧
    getDerivedStateFromProps wd1 (props "g" []) (Layout.state inst1) = None ∧
    ∃ wd2 inst2,
      onResizeStop 0 wd1 = Return () wd2 ∧
      World.instances wd2 !! 0%nat = Some inst2 ∧
      State.placeholder (Layout.state inst2) = None.
Proof.
  intros inst wd.
  destruct (resize_holds_the_props_off 0 a0 3 2 wd inst eq_refl) as [_ Hfound].
  destruct (Hfound (Item.box "a" 0 0 3 2) eq_refl)
    as (wd1 & inst1 & Hrun & Hinst1 & Hplace & _ & _ & Hoff & wd2 & inst2 & Hstop
        & Hinst2 & Hnone & _).
  exists wd1, inst1. split; [exact Hrun|]. split; [exact Hinst1|].
  split; [exact Hplace|]. split; [apply Hoff|].
  exists wd2, inst2. split; [exact Hstop|]. split; [exact Hinst2 | exact Hnone].
Defined.



(** A layout whose state still has the width 0 of the constructor. *)
Lemma resize_tracks_the_container_witness :
  let inst :=
    Layout.mk "g" (props "g" [])
      (State.mk (Some (Coord.mk 0 0)) [] [] None 0 None None None) (Some container)
      0%nat in
  let w := world [inst] [] in
  ∃ w' inst',
    resize 0 w = Return () w' ∧
    World.instances w' !! 0%nat = Some inst' ∧
    State.containerWidth (Layout.state inst') = 1200 ∧
    resize 0 w' = Return () w'.
Proof.
  intros inst w.
  destruct (resize_tracks_the_container 0 w inst eq_refl)
    as (w' & inst' & Hrun & Hinst' & Hwidth & _ & Hagain & _).
  exists w', inst'. split; [exact Hrun|]. split; [exact Hinst'|].
  split; [exact Hwidth | exact Hagain].
Defined.

(** The card of C2: its drag ends on no layout, and the props that
    come afterwards are ignored. *)
Lemma cancelled_card_drag_holds_the_props_off_witness :
  let card := Item.box "card-1" 0 1 1 1 in
  let inst := mounted "g" [a0] (dragging [a0; card] [a0] card (Coord.mk 0 1)) in
  let w := world [inst] ["g"] in
  World.hoveredGroups w ≠ [] ∧
  ∃ w',
    onCardItemDragEnd 0 card false "card" w = Return () w' ∧
    World.hoveredGroups w' = ["g"] ∧
    ∃ w'' layout',
      receiveProps 0 (props "g" [a0; b0]) w' = Return () w'' ∧
      World.instances w'' !! 0%nat = Some layout' ∧
      State.layouts (Layout.state layout') = [a0].
Proof.
  intros card inst w.
  assert (World.hoveredGroups w ≠ []) as Hhover by done.
  split; [exact Hhover|].
  destruct (cancelled_card_drag_holds_the_props_off 0 card "card" w inst [a0] card
              1%nat eq_refl eq_refl eq_refl eq_refl Hhover)
    as (w' & Hrun & Hsame & _ & Hprops).
  exists w'. split; [exact Hrun|]. split; [exact Hsame|].
  assert (∃ layout, World.instances w' !! 0%nat = Some layout ∧
                    State.layouts (Layout.state layout) = [a0]) as (layout & Hl & Hls).
  { revert Hrun. vm_compute. intros [= <-]. eexists. split; reflexivity. }
  destruct (Hprops 0%nat (props "g" [a0; b0]) layout Hl)
    as (w'' & layout' & Hrecv & Hl' & Hstate).
  exists w'', layout'. split; [exact Hrecv|]. split; [exact Hl'|].
  by rewrite Hstate.
Defined.

(** A tick that takes [a] to the cell (2, 1), and its drop. *)
Lemma tick_then_drop_commits_the_move_witness :
  let inst :=
    mounted "g" [a0; b0]
      (State.mk (Some (Coord.mk 0 0)) [] [a0; b0] (Some [a0; b0]) 1200 None None None) in
  let w := world [inst] ["g"] in
  let moved := [Item.set_placeholder (Some true) (Item.box "a" 2 1 2 1); b0] in
  let committed := [Item.box "a" 2 1 2 1; b0] in
  ∃ w1 w2 inst2,
    moveItem 0 0 (Coord.mk 250 50) w = Return () w1 ∧
    (State.layouts ∘ Layout.state) <$> World.instances w1 !! 0%nat = Some moved ∧
    onDrop 0 a0 "g" w1 = Return () w2 ∧
    World.instances w2 !! 0%nat = Some inst2 ∧
    State.layouts (Layout.state inst2) = committed ∧
    World.calls w2 =
      [CallLayoutChange 0 committed; CallDrop 0 committed (Item.box "a" 2 1 2 1) a0 "g" "g"].
Proof.
  intros inst w moved committed.
  destruct (tick_then_drop_commits_the_move 0 0 (Coord.mk 250 50) a0 w inst container
              (Coord.mk 0 0) a0 eq_refl eq_refl eq_refl eq_refl)
    as (w1 & inst1 & Hmove & Hinst1 & Hlayouts & _ & _ & _ & _ & Hdrop); [done|].
  destruct Hdrop as (index & l1 & w2 & inst2 & Hidx & Hl1 & Hdrop & Hinst2 & Hcommitted
                     & _ & _ & _ & Hcalls).
  { by_evaluation. }
  vm_compute in Hidx. injection Hidx as <-.
  vm_compute in Hl1. injection Hl1 as <-.
  exists w1, w2, inst2. split; [exact Hmove|].
  split; [rewrite Hinst1; simpl; by rewrite Hlayouts|].
  split; [exact Hdrop|]. split; [exact Hinst2|].
  split; [rewrite Hcommitted; by vm_compute|].
  rewrite Hcalls. by vm_compute.
Defined.

(** A layout constructed with [a] two rows down is handed the same props,
    and then, twice, props with [a] and [b] further down. *)
Lemma props_taken_in_are_stable_witness :
  let p := props "g" [Item.box "a" 0 2 2 1] in
  let q := props "g" [Item.box "a" 0 5 2 1; Item.box "b" 0 7 1 1] in
  let w := after (constructor p) World.initial in
  let w1 := after (receiveProps 0 q) w in
  constructor p World.initial = Return 0%nat w ∧
  receiveProps 0 p w = Return () w ∧
  receiveProps 0 q w = Return () w1 ∧
  (State.layouts ∘ Layout.state) <$> World.instances w1 !! 0%nat
    = Some [a0; Item.box "b" 0 1 1 1] ∧
  receiveProps 0 q w1 = Return () w1.
Proof.
  intros p q w w1.
  assert (constructor p World.initial = Return 0%nat w) as Hc by (by vm_compute).
  assert (receiveProps 0 q w = Return () w1) as Hq by (by vm_compute).
  split; [exact Hc|].
  destruct (props_taken_in_are_stable p World.initial (Layout.state midDrag))
    as (_ & Hconstructed & _).
  destruct (Hconstructed 0%nat w Hc) as (inst & _ & _ & Hp).
  destruct (props_taken_in_are_stable q w (Layout.state midDrag)) as (_ & _ & Hagain).
  split; [exact Hp|]. split; [exact Hq|]. split; [by vm_compute|].
  exact (Hagain 0%nat w1 Hq).
Defined.

End CoverageWitnesses.
